(** * The [up] command of the dev tool (cmd/up.go)

    A shallow embedding of [networksCreate], [registriesLogin],
    [createNetworkServiceMap], [verifyContainerConfig] and [Up], and the
    properties of the orchestration that the specification states.

    The Go code is sequential glue over collaborators that live outside the
    file: the docker client, the registry client, the compose parser and the
    docker-compose command line.  They are taken as an interface
    ([Externals]) over an abstract world; every call is recorded, with the
    values it returned, in the trace of the run.  [log.Fatal] ends the
    process: the run stops with [Exit] and nothing is executed after it. *)

From stdpp Require Import gmap strings list fin_maps sorting.

#[local] Open Scope string_scope.
#[local] Open Scope list_scope.
#[local] Open Scope nat_scope.

(** ** Data model *)

(** A Go [error]: [None] is [nil], [Some msg] an error whose [Error()] is
    [msg]. *)
Abbreviation error := (option string).

Module Registry.
(** An entry of [config.Dev.Registries]. *)
Record t := mk {
  URL : string;
  Name : string;
  Password : string;
  ContinueOnFailure : bool
}.
End Registry.

Module Project.
Record t := mk {
  Name : string;
  Directory : string;
  DockerComposeFilenames : list string
}.
End Project.

Module Dev.
(** [Networks] is a Go map from the network name to its creation options;
    the options are only handed on to the docker client. *)
Record t (Opts : Type) := mk {
  Networks : gmap string Opts;
  Registries : list Registry.t;
  ImagePrefix : string
}.
Arguments mk {Opts}.
Arguments Networks {Opts}.
Arguments Registries {Opts}.
Arguments ImagePrefix {Opts}.
End Dev.

Module Service.
(** A service of a parsed compose file.  [Networks] is a Go map keyed by
    network name; the code only ranges over its keys. *)
Record t := mk {
  Name : string;
  Networks : gmap string unit
}.
End Service.

Module Compose.
Record Config := mk {
  Services : list Service.t
}.
End Compose.

Inductive Level := DebugLevel | InfoLevel | WarnLevel | FatalLevel.

(** What a run does that can be seen from outside: the calls to the
    collaborators, each with what it returned, and the log lines. *)
Inductive Event (Opts : Type) :=
| CallLogin (url name password : string) (err : error)
| CallNetworkIDFromName (name : string) (id : string) (err : error)
| CallNetworkCreate (name : string) (opts : Opts) (id : string) (err : error)
| CallParse (dir file : string) (cfg : Compose.Config) (err : error)
| CallRemoveContainerIfRequired (name id : string) (services : list string)
    (err : error)
| CallRunDockerCompose (prefix cmd : string) (files args : list string)
    (returned : bool)
| Log (lvl : Level) (msg : string).
Arguments CallLogin {Opts}.
Arguments CallNetworkIDFromName {Opts}.
Arguments CallNetworkCreate {Opts}.
Arguments CallParse {Opts}.
Arguments CallRemoveContainerIfRequired {Opts}.
Arguments CallRunDockerCompose {Opts}.
Arguments Log {Opts}.

(** The collaborators, over a world [W] that they read and change.  A Go
    function returning [(v, err)] returns the pair.  [runDockerCompose]
    (same package, another file) returns nothing: the boolean tells whether
    it returned to its caller or ended the process.  [map_range] is the
    order in which a [range] statement visits a map: any enumeration of the
    entries, possibly another one each time. *)
Class Externals (Opts W : Type) := {
  registry_Login : string → string → string → W → error * W;
  docker_NetworkIDFromName : string → W → (string * error) * W;
  docker_NetworkCreate : string → Opts → W → (string * error) * W;
  compose_Parse : string → string → W → (Compose.Config * error) * W;
  docker_RemoveContainerIfRequired :
    string → string → list string → W → error * W;
  exec_runDockerCompose :
    string → string → list string → list string → W → bool * W;
  map_range : ∀ V : Type, gmap string V → W → list (string * V) * W;
  map_range_perm : ∀ (V : Type) (m : gmap string V) (w : W),
    (map_range V m w).1 ≡ₚ map_to_list m
}.

(** The result of a computation: it returned [a], or the process ended. *)
Inductive Res (A : Type) := Done (a : A) | Exit.
Arguments Done {A}.
Arguments Exit {A}.

Record Out (Opts W A : Type) := mkOut {
  events : list (Event Opts);
  world : W;
  res : Res A
}.
Arguments mkOut {Opts W A}.
Arguments events {Opts W A}.
Arguments world {Opts W A}.
Arguments res {Opts W A}.

Section Model.
Context {Opts W : Type} {ext : Externals Opts W}.

(** ** The monad of runs: world passing, a trace, and process exit *)

Definition M (A : Type) : Type := W → Out Opts W A.

Definition ret {A} (a : A) : M A := λ w, mkOut [] w (Done a).

(** The run [o], after the events [evs] have happened. *)
Definition prepend {A} (evs : list (Event Opts)) (o : Out Opts W A)
  : Out Opts W A :=
  mkOut (evs ++ events o) (world o) (res o).

Definition bind {A B} (m : M A) (k : A → M B) : M B := λ w,
  let o := m w in
  match res o with
  | Done a => prepend (events o) (k a (world o))
  | Exit => mkOut (events o) (world o) Exit
  end.

#[export] Instance M_ret : MRet M := @ret.
#[export] Instance M_bind : MBind M := λ A B k m, bind m k.

Definition call {A} (f : W → A * W) (ev : A → Event Opts) : M A := λ w,
  let r := f w in mkOut [ev r.1] r.2 (Done r.1).

Definition log (lvl : Level) (msg : string) : M unit := λ w,
  mkOut [Log lvl msg] w (Done tt).

(** [log.Fatal]: the line is logged and the process exits. *)
Definition log_Fatal {A} (msg : string) : M A := λ w,
  mkOut [Log FatalLevel msg] w Exit.

(** [range m]: the entries of [m] in the order this [range] visits them. *)
Definition range {V} (m : gmap string V) : M (list (string * V)) := λ w,
  let r := map_range V m w in mkOut [] r.2 (Done r.1).

Definition Login (url name password : string) : M error :=
  call (registry_Login url name password) (CallLogin url name password).

Definition NetworkIDFromName (name : string) : M (string * error) :=
  call (docker_NetworkIDFromName name)
       (λ r, CallNetworkIDFromName name r.1 r.2).

Definition NetworkCreate (name : string) (opts : Opts)
  : M (string * error) :=
  call (docker_NetworkCreate name opts)
       (λ r, CallNetworkCreate name opts r.1 r.2).

Definition Parse (dir file : string) : M (Compose.Config * error) :=
  call (compose_Parse dir file) (λ r, CallParse dir file r.1 r.2).

Definition RemoveContainerIfRequired (name id : string)
    (services : list string) : M error :=
  call (docker_RemoveContainerIfRequired name id services)
       (CallRemoveContainerIfRequired name id services).

Definition runDockerCompose (prefix cmd : string) (files args : list string)
  : M unit := λ w,
  let r := exec_runDockerCompose prefix cmd files args w in
  mkOut [CallRunDockerCompose prefix cmd files args r.1] r.2
        (if r.1 then Done tt else Exit).

(** ** networksCreate *)

(** The body of the loop over [appConfig.Networks], for the entries still
    to visit. *)
Fixpoint networksCreate_loop (entries : list (string * Opts))
    (networkIDMap : gmap string string) : M (gmap string string) :=
  match entries with
  | [] => ret networkIDMap
  | (name, opts) :: entries =>
      r ← NetworkIDFromName name;
      (match r.2 with
       | Some err =>
           log_Fatal ("Error checking if network " +:+ name +:+
                      " exists: " +:+ err)
       | None => ret tt
       end);;
      networkID ←
        (if decide (r.1 = EmptyString) then
           c ← NetworkCreate name opts;
           log InfoLevel
             ("Created " +:+ name +:+ " network " +:+ c.1);;
           (match c.2 with
            | Some err => log_Fatal err
            | None => ret tt
            end);;
           ret c.1
         else
           log DebugLevel
             ("Network " +:+ name +:+ " already exists with id " +:+ r.1);;
           ret r.1);
      networksCreate_loop entries (<[name := networkID]> networkIDMap)
  end.

Definition networksCreate (appConfig : Dev.t Opts)
  : M (gmap string string) :=
  entries ← range (Dev.Networks appConfig);
  networksCreate_loop entries ∅.

(** ** registriesLogin *)

Fixpoint registriesLogin_loop (rs : list Registry.t) : M unit :=
  match rs with
  | [] => ret tt
  | r :: rs =>
      err ← Login (Registry.URL r) (Registry.Name r) (Registry.Password r);
      (match err with
       | Some e =>
           let msg := "Failed to login to " +:+ Registry.Name r +:+
                      " registry: " +:+ e in
           if Registry.ContinueOnFailure r
           then log WarnLevel msg
           else log_Fatal msg
       | None =>
           log DebugLevel ("Logged in to registry " +:+ Registry.Name r +:+
                           " at " +:+ Registry.URL r)
       end);;
      registriesLogin_loop rs
  end.

Definition registriesLogin (appConfig : Dev.t Opts) : M unit :=
  registriesLogin_loop (Dev.Registries appConfig).

(** ** createNetworkServiceMap *)

(** [serviceNetworkMap[name] = append(serviceNetworkMap[name], svc)]:
    a missing key reads as the nil slice. *)
Definition append_service (name svc : string)
    (serviceNetworkMap : gmap string (list string))
  : gmap string (list string) :=
  <[name := default [] (serviceNetworkMap !! name) ++ [svc]]>
    serviceNetworkMap.

(** The loop over the keys of [service.Networks]. *)
Fixpoint service_networks_loop (networkIDMap : gmap string string)
    (svc : string) (names : list string)
    (serviceNetworkMap : gmap string (list string))
  : gmap string (list string) :=
  match names with
  | [] => serviceNetworkMap
  | name :: names =>
      service_networks_loop networkIDMap svc names
        (match networkIDMap !! name with
         | Some _ => append_service name svc serviceNetworkMap
         | None => serviceNetworkMap
         end)
  end.

(** The loop over [composeConfig.Services]. *)
Fixpoint services_loop (networkIDMap : gmap string string)
    (services : list Service.t)
    (serviceNetworkMap : gmap string (list string))
  : M (gmap string (list string)) :=
  match services with
  | [] => ret serviceNetworkMap
  | service :: services =>
      entries ← range (Service.Networks service);
      services_loop networkIDMap services
        (service_networks_loop networkIDMap (Service.Name service)
           entries.*1 serviceNetworkMap)
  end.

(** The loop over [project.DockerComposeFilenames]. *)
Fixpoint compose_files_loop (directory : string)
    (networkIDMap : gmap string string) (filenames : list string)
    (serviceNetworkMap : gmap string (list string))
  : M (gmap string (list string)) :=
  match filenames with
  | [] => ret serviceNetworkMap
  | composeFilename :: filenames =>
      p ← Parse directory composeFilename;
      (match p.2 with
       | Some err =>
           log_Fatal
             ("Failed to parse docker-compose appConfig file: " +:+ err)
       | None => ret tt
       end);;
      serviceNetworkMap ←
        services_loop networkIDMap (Compose.Services p.1)
          serviceNetworkMap;
      compose_files_loop directory networkIDMap filenames serviceNetworkMap
  end.

Definition createNetworkServiceMap (devConfig : Dev.t Opts)
    (project : Project.t) (networkIDMap : gmap string string)
  : M (gmap string (list string)) :=
  compose_files_loop (Project.Directory project) networkIDMap
    (Project.DockerComposeFilenames project) ∅.

(** ** verifyContainerConfig *)

Fixpoint remove_loop (networkIDMap : gmap string string)
    (entries : list (string * list string)) : M unit :=
  match entries with
  | [] => ret tt
  | (networkName, services) :: entries =>
      let networkID := default EmptyString (networkIDMap !! networkName) in
      err ← RemoveContainerIfRequired networkName networkID services;
      (match err with
       | Some e => log_Fatal e
       | None => ret tt
       end);;
      remove_loop networkIDMap entries
  end.

Definition verifyContainerConfig (appConfig : Dev.t Opts)
    (project : Project.t) (networkIDMap : gmap string string) : M unit :=
  if decide (size networkIDMap = 0) then ret tt
  else
    networkServiceMap ←
      createNetworkServiceMap appConfig project networkIDMap;
    entries ← range networkServiceMap;
    remove_loop networkIDMap entries.

(** ** Up *)

Definition Up (appConfig : Dev.t Opts) (project : Project.t)
    (tailLogs : bool) : M unit :=
  registriesLogin appConfig;;
  networkIDMap ← networksCreate appConfig;
  verifyContainerConfig appConfig project networkIDMap;;
  runDockerCompose (Dev.ImagePrefix appConfig) "up"
    (Project.DockerComposeFilenames project) ["-d"];;
  if tailLogs then
    runDockerCompose (Dev.ImagePrefix appConfig) "logs"
      (Project.DockerComposeFilenames project) ["-f"; Project.Name project]
  else ret tt.

(** ** ProjectCmdUpCreate *)

(** The fields of a [cobra.Command] that the code sets.  [Run] is given the
    arguments of the command line. *)
Record Command := mkCommand {
  Use : string;
  Short : string;
  Run : list string → M unit
}.

Definition ProjectCmdUpCreate (appConfig : Dev.t Opts) (project : Project.t)
  : Command :=
  {| Use := "up";
     Short := "Create and start the " +:+ Project.Name project +:+
              " containers";
     Run := λ args, Up appConfig project true |}.
End Model.

(** ** Observations on traces *)

Section Observations.
Context {Opts : Type}.
Implicit Types (e : Event Opts) (evs : list (Event Opts)).

Definition is_login (url name password : string) e : bool :=
  match e with
  | CallLogin u n p _ =>
      bool_decide (u = url ∧ n = name ∧ p = password)
  | _ => false
  end.

Definition is_query (name : string) e : bool :=
  match e with
  | CallNetworkIDFromName n _ _ => bool_decide (n = name)
  | _ => false
  end.

Definition is_create (name : string) e : bool :=
  match e with
  | CallNetworkCreate n _ _ _ => bool_decide (n = name)
  | _ => false
  end.

Definition is_parse (dir file : string) e : bool :=
  match e with
  | CallParse d f _ _ => bool_decide (d = dir ∧ f = file)
  | _ => false
  end.

Definition is_remove (name : string) e : bool :=
  match e with
  | CallRemoveContainerIfRequired n _ _ _ => bool_decide (n = name)
  | _ => false
  end.

Definition is_fatal e : bool :=
  match e with
  | Log FatalLevel _ => true
  | _ => false
  end.

(** The calls a trace makes to one collaborator, in order. *)
Definition logins evs : list (string * string * string) :=
  omap (λ e, match e with
             | CallLogin u n p _ => Some (u, n, p)
             | _ => None
             end) evs.

Definition parses evs : list (string * string) :=
  omap (λ e, match e with
             | CallParse d f _ _ => Some (d, f)
             | _ => None
             end) evs.

(** The compose configurations that the parser handed back without an
    error, in order. *)
Definition parsed evs : list Compose.Config :=
  omap (λ e, match e with
             | CallParse _ _ cfg None => Some cfg
             | _ => None
             end) evs.

(** The names of the services of the parsed files that reference network
    [name], one per service that does, in file and service order. *)
Definition dependents (name : string) (cfgs : list Compose.Config)
  : list string :=
  cfg ← cfgs;
  svc ← Compose.Services cfg;
  if decide (name ∈ dom (Service.Networks svc))
  then [Service.Name svc] else [].

(** How many services called [svc] in the parsed files reference [name]. *)
Definition occurrences (name svc : string) (cfgs : list Compose.Config)
  : nat :=
  length (filter (λ s, Service.Name s = svc ∧
                       name ∈ dom (Service.Networks s))
            (cfgs ≫= Compose.Services)).

(** The stages of the driver. *)
Inductive Stage :=
| LoginRegistries | EnsureNetworks | ReconcileContainers | ComposeUp
| TailLogs.

#[global] Instance Stage_eq_dec : EqDecision Stage.
Proof. solve_decision. Defined.

Definition stage_index (s : Stage) : nat :=
  match s with
  | LoginRegistries => 0
  | EnsureNetworks => 1
  | ReconcileContainers => 2
  | ComposeUp => 3
  | TailLogs => 4
  end.

(** The stage a call belongs to; log lines belong to none.  The two
    docker-compose invocations are told apart by their subcommand. *)
Definition stage_of e : option Stage :=
  match e with
  | CallLogin _ _ _ _ => Some LoginRegistries
  | CallNetworkIDFromName _ _ _ | CallNetworkCreate _ _ _ _ =>
      Some EnsureNetworks
  | CallParse _ _ _ _ | CallRemoveContainerIfRequired _ _ _ _ =>
      Some ReconcileContainers
  | CallRunDockerCompose _ cmd _ _ _ =>
      if decide (cmd = "logs") then Some TailLogs else Some ComposeUp
  | Log _ _ => None
  end.

Definition stages evs : list Stage := omap stage_of evs.

Definition stage_le (s1 s2 : Stage) : Prop :=
  stage_index s1 ≤ stage_index s2.

(** What the loop of [networksCreate] over [entries] may do: query and
    create the networks of [entries], and log. *)
Definition net_event (entries : list (string * Opts)) e : Prop :=
  match e with
  | CallNetworkIDFromName n _ _ => n ∈ entries.*1
  | CallNetworkCreate n opts _ _ => (n, opts) ∈ entries
  | Log _ _ => True
  | _ => False
  end.

(** What [createNetworkServiceMap] may do: parse, and log. *)
Definition parse_event e : Prop :=
  match e with
  | CallParse _ _ _ _ | Log _ _ => True
  | _ => False
  end.

(** What the loop of [verifyContainerConfig] over [entries] may do: ask for
    the removal of the containers of an entry, with the identifier that
    [networkIDMap] gives for the network, and log. *)
Definition remove_event (networkIDMap : gmap string string)
    (entries : list (string * list string)) e : Prop :=
  match e with
  | CallRemoveContainerIfRequired n id services _ =>
      (n, services) ∈ entries ∧ id = default EmptyString (networkIDMap !! n)
  | Log _ _ => True
  | _ => False
  end.

(** A network or container operation: anything but a login and a log
    line. *)
Definition is_operation e : bool :=
  match e with
  | CallLogin _ _ _ _ | Log _ _ => false
  | _ => true
  end.

(** The calls of [evs] that belong to stage [s], in order. *)
Definition stage_calls (s : Stage) evs : list (Event Opts) :=
  filter (λ e, stage_of e = Some s) evs.

(** All calls of [evs] belong to stages between [lo] and [hi]. *)
Definition within (lo hi : nat) evs : Prop :=
  Forall (λ e, ∀ s, stage_of e = Some s → lo ≤ stage_index s ≤ hi) evs.

(** The calls of [evs] are made in the order of the stages. *)
Definition in_stage_order evs : Prop := StronglySorted stage_le (stages evs).

(** A fatal log line is the last thing a run does, and the run exits. *)
Definition fatal_halts {W A} (o : Out Opts W A) : Prop :=
  ∀ pre msg post,
    events o = pre ++ Log FatalLevel msg :: post → post = [] ∧ res o = Exit.

(** What [registry.Login] is called with for an entry of the registry
    list. *)
Definition login_of (r : Registry.t) : string * string * string :=
  (Registry.URL r, Registry.Name r, Registry.Password r).

(** The two docker-compose invocations of [Up], with what they report. *)
Definition compose_up_call (appConfig : Dev.t Opts) (project : Project.t)
    (returned : bool) : Event Opts :=
  CallRunDockerCompose (Dev.ImagePrefix appConfig) "up"
    (Project.DockerComposeFilenames project) ["-d"] returned.

Definition compose_logs_call (appConfig : Dev.t Opts) (project : Project.t)
    (returned : bool) : Event Opts :=
  CallRunDockerCompose (Dev.ImagePrefix appConfig) "logs"
    (Project.DockerComposeFilenames project) ["-f"; Project.Name project]
    returned.

(** The configuration with another registry list. *)
Definition with_registries (appConfig : Dev.t Opts) (rs : list Registry.t)
  : Dev.t Opts :=
  Dev.mk (Dev.Networks appConfig) rs (Dev.ImagePrefix appConfig).
(** A docker-compose invocation that ended the process. *)
Definition is_compose_exit e : bool :=
  match e with
  | CallRunDockerCompose _ _ _ _ false => true
  | _ => false
  end.

(** A run that exits does so at a fatal log line or in docker-compose: that
    is its last event. *)
Definition exits_loudly {W A} (o : Out Opts W A) : Prop :=
  res o = Exit →
  ∃ pre e, events o = pre ++ [e] ∧
           (is_fatal e = true ∨ is_compose_exit e = true).

(** The line [registriesLogin] logs after the login to [r] answered
    [err]. *)
Definition login_line (r : Registry.t) (err : error) : Event Opts :=
  match err with
  | Some e =>
      Log (if Registry.ContinueOnFailure r then WarnLevel else FatalLevel)
        ("Failed to login to " +:+ Registry.Name r +:+ " registry: " +:+ e)
  | None =>
      Log DebugLevel ("Logged in to registry " +:+ Registry.Name r +:+
                      " at " +:+ Registry.URL r)
  end.
End Observations.

(** ** A small concrete world

    Networks that exist are a map from name to identifier; creating a
    network registers the identifier ["id-" ++ name].  Login fails for the
    password ["wrong"]; the parser knows two files; removal fails for the
    network ["broken"]; maps are visited in the order of [map_to_list]. *)

Module Sample.
Definition svc (name : string) (nets : list string) : Service.t :=
  Service.mk name (list_to_map ((λ n, (n, tt)) <$> nets)).

Definition parse (dir file : string) : Compose.Config * error :=
  if decide (file = "a.yml") then
    (Compose.mk [svc "A" ["x"]; svc "B" ["y"]], None)
  else if decide (file = "b.yml") then
    (Compose.mk [svc "A" ["x"]], None)
  else (Compose.mk [], Some "no such file").

Definition ext : Externals unit (gmap string string) := {|
  registry_Login _ _ password w :=
    (if decide (password = "wrong") then Some "denied" else None, w);
  docker_NetworkIDFromName name w :=
    ((default EmptyString (w !! name), None), w);
  docker_NetworkCreate name _ w :=
    (("id-" +:+ name, None), <[name := "id-" +:+ name]> w);
  compose_Parse dir file w := (parse dir file, w);
  docker_RemoveContainerIfRequired name _ _ w :=
    (if decide (name = "broken") then Some "cannot remove" else None, w);
  exec_runDockerCompose _ _ _ _ w := (true, w);
  map_range V m w := (map_to_list m, w);
  map_range_perm V m w := Permutation_refl (map_to_list m)
|}.

Definition registry (name password : string) (tolerant : bool)
  : Registry.t :=
  Registry.mk ("https://" +:+ name) name password tolerant.

Definition project (files : list string) : Project.t :=
  Project.mk "web" "/srv/web" files.

Definition dev (nets : list string) (rs : list Registry.t) : Dev.t unit :=
  Dev.mk (list_to_map ((λ n, (n, tt)) <$> nets)) rs "dev".
End Sample.

(** ** A world with failures

    As the sample world, but the docker daemon cannot be asked about the
    network ["down"] and cannot create the network ["full"]. *)

Module Faulty.
Definition ext : Externals unit (gmap string string) := {|
  registry_Login := registry_Login (Externals:=Sample.ext);
  docker_NetworkIDFromName name w :=
    if decide (name = "down") then ((EmptyString, Some "unreachable"), w)
    else ((default EmptyString (w !! name), None), w);
  docker_NetworkCreate name _ w :=
    if decide (name = "full") then ((EmptyString, Some "pool exhausted"), w)
    else (("id-" +:+ name, None), <[name := "id-" +:+ name]> w);
  compose_Parse := compose_Parse (Externals:=Sample.ext);
  docker_RemoveContainerIfRequired :=
    docker_RemoveContainerIfRequired (Externals:=Sample.ext);
  exec_runDockerCompose := exec_runDockerCompose (Externals:=Sample.ext);
  map_range V m w := (map_to_list m, w);
  map_range_perm V m w := Permutation_refl (map_to_list m)
|}.
End Faulty.

(** ** Proofs *)

Section Proofs.
Context {Opts W : Type} {ext : Externals Opts W}.
Implicit Types (w : W) (evs : list (Event Opts)) (e : Event Opts).

(** *** The monad *)

Lemma prepend_events {A} evs (o : Out Opts W A) :
  events (prepend evs o) = evs ++ events o.
Proof. done. Qed.

Lemma prepend_res {A} evs (o : Out Opts W A) : res (prepend evs o) = res o.
Proof. done. Qed.

Lemma prepend_world {A} evs (o : Out Opts W A) :
  world (prepend evs o) = world o.
Proof. done. Qed.

Lemma prepend_nil {A} (o : Out Opts W A) : prepend [] o = o.
Proof. by destruct o. Qed.

Lemma prepend_prepend {A} evs1 evs2 (o : Out Opts W A) :
  prepend evs1 (prepend evs2 o) = prepend (evs1 ++ evs2) o.
Proof. unfold prepend; cbn. by rewrite (assoc_L (++)). Qed.

Lemma bind_run {A B} (m : M A) (k : A → M B) w :
  (m ≫= k) w =
  match res (m w) return Out Opts W B with
  | Done a => prepend (events (m w)) (k a (world (m w)))
  | Exit => mkOut (events (m w)) (world (m w)) Exit
  end.
Proof. done. Qed.

Lemma range_run {V} (m : gmap string V) w :
  range m w = mkOut [] (map_range V m w).2 (Done (map_range V m w).1).
Proof. done. Qed.

(** *** networksCreate *)

Lemma networksCreate_loop_cons name opts entries acc w :
  networksCreate_loop ((name, opts) :: entries) acc w =
  let q := docker_NetworkIDFromName name w in
  let ev_q := CallNetworkIDFromName name q.1.1 q.1.2 in
  match q.1.2 with
  | Some err =>
      mkOut [ev_q; Log FatalLevel ("Error checking if network " +:+ name +:+
                                   " exists: " +:+ err)] q.2 Exit
  | None =>
      if decide (q.1.1 = EmptyString) then
        let c := docker_NetworkCreate name opts q.2 in
        let ev_c := CallNetworkCreate name opts c.1.1 c.1.2 in
        let ev_i := Log InfoLevel ("Created " +:+ name +:+ " network " +:+
                                   c.1.1) in
        match c.1.2 with
        | Some err => mkOut [ev_q; ev_c; ev_i; Log FatalLevel err] c.2 Exit
        | None =>
            prepend [ev_q; ev_c; ev_i]
              (networksCreate_loop entries (<[name := c.1.1]> acc) c.2)
        end
      else
        prepend [ev_q; Log DebugLevel ("Network " +:+ name +:+
                                       " already exists with id " +:+ q.1.1)]
          (networksCreate_loop entries (<[name := q.1.1]> acc) q.2)
  end.
Proof.
  cbn [networksCreate_loop].
  unfold mbind, M_bind, bind, NetworkIDFromName, NetworkCreate, call, log,
    log_Fatal, ret, prepend.
  destruct (docker_NetworkIDFromName name w) as [[id [e|]] w1]; cbn; [done|].
  destruct (decide (id = EmptyString)); cbn.
  - destruct (docker_NetworkCreate name opts w1) as [[id2 [e2|]] w2]; cbn; done.
  - done.
Qed.

(** The four ways one turn of the loop can go. *)
Ltac network_step name opts w :=
  rewrite networksCreate_loop_cons; cbn zeta;
  let id := fresh "id" in let e := fresh "e" in let w1 := fresh "w" in
  let Hid := fresh "Hid" in
  destruct (docker_NetworkIDFromName name w) as [[id [e|]] w1];
  cbn [fst snd];
  [| destruct (decide (id = EmptyString)) as [Hid|Hid];
     [let id2 := fresh "id" in let e2 := fresh "e" in let w2 := fresh "w" in
      destruct (docker_NetworkCreate name opts w1) as [[id2 [e2|]] w2];
      cbn [fst snd] |]];
  rewrite ?prepend_events, ?prepend_res; cbn [events res world app].

Lemma networksCreate_loop_events entries acc w :
  Forall (net_event entries) (events (networksCreate_loop entries acc w)).
Proof.
  revert acc w. induction entries as [|[name opts] entries IH]; intros acc w.
  { constructor. }
  assert (∀ e, net_event entries e → net_event ((name, opts) :: entries) e)
    as Hmono.
  { intros [] ; cbn; set_solver. }
  network_step name opts w;
    repeat (apply Forall_cons; split; [cbn; set_solver|]);
    try apply Forall_nil_2;
    (eapply Forall_impl; [apply IH | exact Hmono]).
Qed.

Lemma networksCreate_loop_fresh entries acc w name :
  name ∉ entries.*1 →
  filter (is_query name) (events (networksCreate_loop entries acc w)) = [] ∧
  filter (is_create name) (events (networksCreate_loop entries acc w)) = [].
Proof.
  intros Hn. pose proof (networksCreate_loop_events entries acc w) as H.
  induction H as [|e evs He _ IH]; [done|].
  rewrite !filter_cons. destruct IH as [-> ->].
  destruct e; cbn in *; repeat case_decide; try done;
    repeat match goal with H : Is_true (bool_decide _) |- _ =>
      apply bool_decide_unpack in H end; subst; try done.
  apply (list_elem_of_fmap_2 fst) in He. done.
Qed.

Lemma networksCreate_loop_result entries acc w m :
  res (networksCreate_loop entries acc w) = Done m →
  dom m = dom acc ∪ list_to_set entries.*1 ∧
  ∀ name, name ∉ entries.*1 → m !! name = acc !! name.
Proof.
  revert acc w. induction entries as [|[name opts] entries IH]; intros acc w.
  { cbn. intros [= ->]. split; [set_solver|done]. }
  network_step name opts w; try done; intros Hm;
    apply IH in Hm as [Hdom Hframe]; rewrite Hdom, dom_insert_L;
    (split; [set_solver|]); intros n Hn; cbn in Hn;
    apply not_elem_of_cons in Hn as [??];
    by rewrite Hframe, lookup_insert_ne.
Qed.

Lemma filter_is_query_cons name e evs :
  filter (is_query name) (e :: evs) =
  if is_query name e then e :: filter (is_query name) evs
  else filter (is_query name) evs.
Proof. rewrite filter_cons. destruct (is_query name e); by case_decide. Qed.

Lemma filter_is_create_cons name e evs :
  filter (is_create name) (e :: evs) =
  if is_create name e then e :: filter (is_create name) evs
  else filter (is_create name) evs.
Proof. rewrite filter_cons. destruct (is_create name e); by case_decide. Qed.


(** A network not found is created once, with its options, and the
    identifier of the creation is the one returned. *)
Lemma networksCreate_loop_create entries acc w name :
  NoDup entries.*1 →
  CallNetworkIDFromName name EmptyString None
    ∈ events (networksCreate_loop entries acc w) →
  ∃ opts id err,
    (name, opts) ∈ entries ∧
    filter (is_create name) (events (networksCreate_loop entries acc w))
      = [CallNetworkCreate name opts id err] ∧
    ∀ m, res (networksCreate_loop entries acc w) = Done m →
         err = None ∧ m !! name = Some id.
Proof.
  revert acc w. induction entries as [|[n opts] entries IH]; intros acc w.
  { cbn. by intros _ ?%elem_of_nil. }
  cbn [fmap list_fmap fst]. intros [Hn Hnd]%NoDup_cons Hin.
  assert (∀ acc' w', CallNetworkIDFromName name EmptyString None
      ∈ events (networksCreate_loop entries acc' w') → name ≠ n) as Hne.
  { intros acc' w' Hin' ->.
    pose proof (networksCreate_loop_events entries acc' w') as H.
    rewrite Forall_forall in H. apply H in Hin'. done. }
  assert (∀ acc' w',
    CallNetworkIDFromName name EmptyString None
      ∈ events (networksCreate_loop entries acc' w') →
    ∃ opts' id err,
      (name, opts') ∈ (n, opts) :: entries ∧
      filter (is_create name) (events (networksCreate_loop entries acc' w'))
        = [CallNetworkCreate name opts' id err] ∧
      ∀ m, res (networksCreate_loop entries acc' w') = Done m →
           err = None ∧ m !! name = Some id) as IH'.
  { intros acc' w' Hin'.
    destruct (IH acc' w' Hnd Hin') as (o & i & er & Ho & Hf & Hm).
    exists o, i, er. split_and!; [by right|done|done]. }
  revert Hin. network_step n opts w; rewrite ?elem_of_cons, ?elem_of_nil.
  - intros [H|[H|[]]]; discriminate.
  - intros [H|[H|[H|[H|[]]]]]; try discriminate.
    injection H as <- _.
    exists opts, id0, (Some e0). rewrite !filter_is_create_cons. cbn.
    rewrite bool_decide_true by done. split_and!; [left|done|done].
  - intros [H|[H|[H|Hin]]]; try discriminate.
    + injection H as <- _.
      destruct (networksCreate_loop_fresh entries (<[name:=id0]> acc) w1 name)
        as [_ Hc]; [done|].
      exists opts, id0, None. rewrite !filter_is_create_cons. cbn.
      rewrite bool_decide_true by done. rewrite Hc.
      split_and!; [left|done|]. intros m Hm.
      apply networksCreate_loop_result in Hm as [_ Hm].
      by rewrite Hm, lookup_insert_eq.
    + rewrite !filter_is_create_cons. cbn.
      rewrite bool_decide_false by (intros ->; by eapply Hne).
      by apply IH'.
  - intros [H|[H|Hin]]; try discriminate.
    { injection H as <- <-. done. }
    rewrite !filter_is_create_cons. cbn. by apply IH'.
Qed.

Lemma networksCreate_loop_queries entries acc w name :
  NoDup entries.*1 →
  length (filter (is_query name)
            (events (networksCreate_loop entries acc w))) ≤ 1 ∧
  length (filter (is_create name)
            (events (networksCreate_loop entries acc w))) ≤ 1 ∧
  (name ∈ entries.*1 →
   ∀ m, res (networksCreate_loop entries acc w) = Done m →
   length (filter (is_query name)
             (events (networksCreate_loop entries acc w))) = 1).
Proof.
  revert acc w. induction entries as [|[n opts] entries IH]; intros acc w.
  { cbn. intros _. split_and!; [lia|lia|by intros ?%elem_of_nil]. }
  cbn [fmap list_fmap fst]. intros [Hn Hnd]%NoDup_cons.
  destruct (decide (name = n)) as [->|Hne].
  - assert (∀ acc' w',
      filter (is_query n) (events (networksCreate_loop entries acc' w')) = []
      ∧ filter (is_create n)
          (events (networksCreate_loop entries acc' w')) = []) as Hfresh.
    { intros. by apply networksCreate_loop_fresh. }
    network_step n opts w;
      rewrite !filter_is_query_cons, !filter_is_create_cons; cbn;
      rewrite ?bool_decide_true by done;
      rewrite ?(proj1 (Hfresh _ _)), ?(proj2 (Hfresh _ _)); cbn;
      split_and!; (lia || done).
  - assert (n ≠ name) as Hne' by done.
    network_step n opts w;
      rewrite !filter_is_query_cons, !filter_is_create_cons; cbn;
      rewrite ?bool_decide_false by done; cbn.
    + split_and!; (lia || done).
    + split_and!; (lia || done).
    + destruct (IH (<[n:=id0]> acc) w1 Hnd) as (?&?&Hq).
      split_and!; [done|done|].
      intros [?|?]%elem_of_cons; [done|by apply Hq].
    + destruct (IH (<[n:=id]> acc) w0 Hnd) as (?&?&Hq).
      split_and!; [done|done|].
      intros [?|?]%elem_of_cons; [done|by apply Hq].
Qed.

Lemma networksCreate_run appConfig w :
  networksCreate appConfig w =
  networksCreate_loop (map_range Opts (Dev.Networks appConfig) w).1 ∅
    (map_range Opts (Dev.Networks appConfig) w).2.
Proof.
  unfold networksCreate. rewrite bind_run, range_run. cbn [res events world].
  apply prepend_nil.
Qed.

Lemma map_range_NoDup {V} (m : gmap string V) w :
  NoDup (map_range V m w).1.*1.
Proof. rewrite (map_range_perm V m w). apply NoDup_fst_map_to_list. Qed.

Lemma map_range_elem_of {V} (m : gmap string V) w k v :
  (k, v) ∈ (map_range V m w).1 ↔ m !! k = Some v.
Proof. rewrite (map_range_perm V m w). apply elem_of_map_to_list. Qed.

Lemma map_range_keys {V} (m : gmap string V) w k :
  k ∈ (map_range V m w).1.*1 ↔ k ∈ dom m.
Proof.
  rewrite (map_range_perm V m w), elem_of_dom, list_elem_of_fmap.
  split.
  - intros ([k' v] & -> & Hin%elem_of_map_to_list). by exists v.
  - intros [v Hv]. exists (k, v). by rewrite elem_of_map_to_list.
Qed.



(** C4. When [networksCreate] returns, the keys of its map are exactly the
    declared networks: none is missing (and each was queried once). *)
Theorem networksCreate_complete appConfig w m :
  res (networksCreate appConfig w) = Done m →
  dom m = dom (Dev.Networks appConfig) ∧
  ∀ name, name ∈ dom (Dev.Networks appConfig) →
    is_Some (m !! name) ∧
    length (filter (is_query name)
              (events (networksCreate appConfig w))) = 1.
Proof.
  rewrite networksCreate_run. intros Hm.
  pose proof (networksCreate_loop_result _ _ _ _ Hm) as [Hdom _].
  assert (dom m = dom (Dev.Networks appConfig)) as Hdom'.
  { rewrite Hdom, dom_empty_L, (left_id_L ∅ (∪)).
    apply set_eq. intros k. rewrite elem_of_list_to_set.
    apply map_range_keys. }
  split; [done|]. intros name Hname. split.
  - apply elem_of_dom. by rewrite Hdom'.
  - eapply networksCreate_loop_queries; [apply map_range_NoDup| |done].
    by apply map_range_keys.
Qed.

(** *** createNetworkServiceMap *)

(** The service list of [name]: a missing key reads as the nil slice. *)
Lemma service_networks_loop_lookup idmap svc names acc name :
  NoDup names →
  default [] (service_networks_loop idmap svc names acc !! name) =
  default [] (acc !! name) ++
  (if decide (name ∈ names ∧ is_Some (idmap !! name)) then [svc] else []).
Proof.
  revert acc. induction names as [|n names IH]; intros acc.
  { intros _. cbn. rewrite decide_False by (by intros [?%elem_of_nil _]).
    by rewrite app_nil_r. }
  intros [Hn Hnd]%NoDup_cons. cbn [service_networks_loop]. rewrite IH by done.
  destruct (decide (name = n)) as [->|Hne].
  - rewrite (decide_False (P:=n ∈ names ∧ _)) by (by intros [? _]).
    rewrite app_nil_r. destruct (idmap !! n) as [i|] eqn:Hi.
    + unfold append_service. rewrite lookup_insert_eq. cbn.
      rewrite decide_True; [done|]. split; [left|done].
    + rewrite decide_False; [by rewrite app_nil_r|].
      intros [_ []]; done.
  - assert (default [] (match idmap !! n with
                        | Some _ => append_service n svc acc
                        | None => acc
                        end !! name) = default [] (acc !! name)) as ->.
    { destruct (idmap !! n); [|done].
      unfold append_service. by rewrite lookup_insert_ne. }
    f_equal. apply decide_ext. rewrite elem_of_cons. naive_solver.
Qed.

Lemma service_networks_loop_nonempty idmap svc names acc :
  map_Forall (λ _ l, l ≠ []) acc →
  map_Forall (λ _ l, l ≠ []) (service_networks_loop idmap svc names acc).
Proof.
  revert acc. induction names as [|n names IH]; intros acc Hacc; [done|].
  cbn [service_networks_loop]. apply IH.
  destruct (idmap !! n); [|done].
  unfold append_service. apply map_Forall_insert_2; [|done].
  by destruct (default [] (acc !! n)).
Qed.

Lemma service_networks_loop_dom idmap svc names acc :
  dom acc ⊆ dom idmap →
  dom (service_networks_loop idmap svc names acc) ⊆ dom idmap.
Proof.
  revert acc. induction names as [|n names IH]; intros acc Hacc; [done|].
  cbn [service_networks_loop]. apply IH.
  destruct (idmap !! n) eqn:Hn; [|done].
  unfold append_service. rewrite dom_insert. apply elem_of_dom_2 in Hn.
  set_solver.
Qed.

Lemma services_loop_cons idmap service services acc w :
  services_loop idmap (service :: services) acc w =
  services_loop idmap services
    (service_networks_loop idmap (Service.Name service)
       (map_range unit (Service.Networks service) w).1.*1 acc)
    (map_range unit (Service.Networks service) w).2.
Proof.
  cbn [services_loop]. rewrite bind_run, range_run. cbn [res events world].
  apply prepend_nil.
Qed.

(** The services of one file that reference [name]. *)
Lemma services_loop_run idmap services acc w :
  ∃ m w',
    services_loop idmap services acc w = mkOut [] w' (Done m) ∧
    (map_Forall (λ _ l, l ≠ []) acc → map_Forall (λ _ l, l ≠ []) m) ∧
    (dom acc ⊆ dom idmap → dom m ⊆ dom idmap) ∧
    ∀ name,
      default [] (m !! name) =
      default [] (acc !! name) ++
      (if decide (is_Some (idmap !! name))
       then dependents name [Compose.mk services] else []).
Proof.
  revert acc w. induction services as [|svc services IH]; intros acc w.
  { exists acc, w. split_and!; [done..|]. intros name. cbn.
    case_decide; by rewrite app_nil_r. }
  rewrite services_loop_cons.
  destruct (IH (service_networks_loop idmap (Service.Name svc)
             (map_range unit (Service.Networks svc) w).1.*1 acc)
             (map_range unit (Service.Networks svc) w).2)
    as (m & w' & -> & Hne & Hdom & Hm).
  exists m, w'. split_and!; [done| | |].
  - intros. by apply Hne, service_networks_loop_nonempty.
  - intros. by apply Hdom, service_networks_loop_dom.
  - intros name. rewrite Hm, service_networks_loop_lookup
      by apply map_range_NoDup.
    rewrite <-(assoc_L (++)). f_equal.
    unfold dependents. cbn. rewrite !app_nil_r.
    destruct (decide (is_Some (idmap !! name))) as [Hs|Hs].
    + rewrite (decide_ext _ (name ∈ dom (Service.Networks svc))); [done|].
      rewrite map_range_keys. naive_solver.
    + rewrite decide_False by naive_solver. done.
Qed.

Lemma compose_files_loop_cons dir idmap file files acc w :
  compose_files_loop dir idmap (file :: files) acc w =
  let p := compose_Parse dir file w in
  match p.1.2 with
  | Some err =>
      mkOut [CallParse dir file p.1.1 (Some err);
             Log FatalLevel
               ("Failed to parse docker-compose appConfig file: " +:+ err)]
            p.2 Exit
  | None =>
      prepend [CallParse dir file p.1.1 None]
        ((services_loop idmap (Compose.Services p.1.1) acc
            ≫= compose_files_loop dir idmap files) p.2)
  end.
Proof.
  cbn [compose_files_loop].
  unfold mbind at 1 2, M_bind at 1 2, bind, Parse, call, log_Fatal, ret,
    prepend.
  destruct (compose_Parse dir file w) as [[cfg [e|]] w1]; cbn; [done|].
  by destruct (res _).
Qed.

Lemma dependents_cons name cfg cfgs :
  dependents name (cfg :: cfgs) =
  dependents name [cfg] ++ dependents name cfgs.
Proof. unfold dependents. cbn. by rewrite app_nil_r. Qed.

Lemma parses_cons_parse d f cfg err evs :
  parses (CallParse d f cfg err :: evs) = (d, f) :: parses evs.
Proof. done. Qed.

Lemma parsed_cons_parse d f cfg evs :
  parsed (CallParse d f cfg None :: evs) = cfg :: parsed evs.
Proof. done. Qed.

Lemma compose_files_loop_spec dir idmap files acc w :
  let o := compose_files_loop dir idmap files acc w in
  Forall parse_event (events o) ∧
  parses (events o) `prefix_of` (pair dir <$> files) ∧
  ∀ m, res o = Done m →
    parses (events o) = (pair dir <$> files) ∧
    (map_Forall (λ _ l, l ≠ []) acc → map_Forall (λ _ l, l ≠ []) m) ∧
    (dom acc ⊆ dom idmap → dom m ⊆ dom idmap) ∧
    ∀ name,
      default [] (m !! name) =
      default [] (acc !! name) ++
      (if decide (is_Some (idmap !! name))
       then dependents name (parsed (events o)) else []).
Proof.
  revert acc w. induction files as [|file files IH]; intros acc w; cbn zeta.
  { cbn. split_and!; [done|done|]. intros m [= ->]. split_and!; [done..|].
    intros name. case_decide; by rewrite app_nil_r. }
  rewrite compose_files_loop_cons. cbn zeta.
  destruct (compose_Parse dir file w) as [[cfg [e|]] w1]; cbn [fst snd].
  { cbn. split_and!; [by repeat constructor| |done].
    apply prefix_cons, prefix_nil. }
  destruct (services_loop_run idmap (Compose.Services cfg) acc w1)
    as (m1 & w2 & Hrun & Hne1 & Hdom1 & Hm1).
  rewrite bind_run, Hrun. cbn [res events world]. rewrite prepend_nil.
  destruct (IH m1 w2) as (Hev & Hpre & Hdone). cbn zeta in *.
  rewrite prepend_events, prepend_res. cbn [app].
  split_and!.
  - by constructor.
  - rewrite parses_cons_parse, fmap_cons. by apply prefix_cons.
  - intros m Hm. destruct (Hdone m Hm) as (Hp & Hne & Hdom & Hl).
    split_and!.
    + by rewrite parses_cons_parse, fmap_cons, Hp.
    + auto.
    + auto.
    + intros name. rewrite Hl, Hm1, <-(assoc_L (++)). f_equal.
      rewrite parsed_cons_parse.
      case_decide; [|done]. rewrite (dependents_cons _ cfg).
      by destruct cfg.
Qed.

(** The service-network map, read as the nil slice on missing keys, is the
    list of dependents of the declared networks; no list in it is empty. *)
Lemma createNetworkServiceMap_spec devConfig project networkIDMap w m :
  let o := createNetworkServiceMap devConfig project networkIDMap w in
  res o = Done m →
  dom m ⊆ dom networkIDMap ∧
  ∀ name,
    m !! name =
    if decide (name ∈ dom networkIDMap ∧
               dependents name (parsed (events o)) ≠ [])
    then Some (dependents name (parsed (events o))) else None.
Proof.
  cbn zeta. unfold createNetworkServiceMap. intros Hm.
  destruct (compose_files_loop_spec (Project.Directory project) networkIDMap
    (Project.DockerComposeFilenames project) ∅ w) as (_ & _ & Hdone).
  destruct (Hdone m Hm) as (_ & Hne & Hdom & Hl).
  split; [apply Hdom; set_solver|]. intros name.
  specialize (Hl name). rewrite lookup_empty in Hl. cbn in Hl.
  specialize (Hne (map_Forall_empty _)).
  destruct (m !! name) as [l|] eqn:Hmn; cbn in Hl.
  - apply Hne in Hmn as Hnn. subst l.
    destruct (decide (is_Some (networkIDMap !! name))) as [Hs|Hs]; [|done].
    rewrite decide_True; [done|]. split; [by apply elem_of_dom|done].
  - destruct (decide (name ∈ dom networkIDMap ∧ _)) as [[Hs Hd]|]; [|done].
    apply elem_of_dom in Hs. rewrite decide_True in Hl by done. done.
Qed.

(** C1. The service-network map has only declared networks as keys.  In
    particular, when the one compose file of the project parses to the
    services [A] on network ["x"] and [B] on network ["y"], and ["x"] is the
    only declared network, the map is [{"x": ["A"]}]. *)
Theorem createNetworkServiceMap_declared_only devConfig project
    networkIDMap w :
  (∀ m, res (createNetworkServiceMap devConfig project networkIDMap w)
          = Done m →
        dom m ⊆ dom networkIDMap) ∧
  (∀ file cfg w1,
     Project.DockerComposeFilenames project = [file] →
     compose_Parse (Project.Directory project) file w = (cfg, None, w1) →
     Compose.Services cfg ≡ₚ [Service.mk "A" {["x" := ()]};
                              Service.mk "B" {["y" := ()]}] →
     dom networkIDMap = {["x"]} →
     res (createNetworkServiceMap devConfig project networkIDMap w)
       = Done {["x" := ["A"]]}).
Proof.
  split.
  { intros m Hm. by apply createNetworkServiceMap_spec in Hm as [? _]. }
  intros file cfg w1 Hfiles Hparse Hsvcs Hdom.
  destruct (res (createNetworkServiceMap devConfig project networkIDMap w))
    as [m|] eqn:Hres.
  2:{ revert Hres. unfold createNetworkServiceMap.
      rewrite Hfiles, compose_files_loop_cons, Hparse. cbn [fst snd].
      destruct (services_loop_run networkIDMap (Compose.Services cfg) ∅ w1)
        as (m1 & w2 & Hrun & _).
      rewrite bind_run, Hrun. done. }
  f_equal. apply createNetworkServiceMap_spec in Hres as Hspec.
  destruct Hspec as [_ Hspec].
  assert (parsed (events
    (createNetworkServiceMap devConfig project networkIDMap w)) = [cfg])
    as Hparsed.
  { unfold createNetworkServiceMap.
    rewrite Hfiles, compose_files_loop_cons, Hparse. cbn [fst snd].
    destruct (services_loop_run networkIDMap (Compose.Services cfg) ∅ w1)
      as (m1 & w2 & Hrun & _).
    rewrite bind_run, Hrun. done. }
  rewrite Hparsed in Hspec. apply map_eq. intros name. rewrite Hspec, Hdom.
  assert (dependents "x" [cfg] = ["A"]) as Hx.
  { unfold dependents. cbn. rewrite app_nil_r.
    symmetry in Hsvcs.
    apply Permutation_length_2_inv in Hsvcs as [->| ->]; by vm_compute. }
  destruct (decide (name = "x")) as [->|Hne].
  - rewrite lookup_singleton_eq, Hx. rewrite decide_True; [done|].
    split; [set_solver|done].
  - rewrite lookup_singleton_ne by done.
    rewrite decide_False; [done|]. set_solver.
Qed.

(** C5. With an empty network identity map [verifyContainerConfig] does
    nothing: no file is parsed, no removal is asked for, and it returns. *)
Theorem verifyContainerConfig_empty appConfig project w :
  verifyContainerConfig appConfig project ∅ w = mkOut [] w (Done ()).
Proof. done. Qed.

(** *** verifyContainerConfig *)

Lemma remove_loop_cons networkIDMap name services entries w :
  remove_loop networkIDMap ((name, services) :: entries) w =
  let id := default EmptyString (networkIDMap !! name) in
  let r := docker_RemoveContainerIfRequired name id services w in
  match r.1 with
  | Some err =>
      mkOut [CallRemoveContainerIfRequired name id services (Some err);
             Log FatalLevel err] r.2 Exit
  | None =>
      prepend [CallRemoveContainerIfRequired name id services None]
        (remove_loop networkIDMap entries r.2)
  end.
Proof.
  cbn [remove_loop].
  unfold mbind, M_bind, bind, RemoveContainerIfRequired, call, log_Fatal, ret,
    prepend.
  by destruct (docker_RemoveContainerIfRequired _ _ _ _) as [[e|] w1].
Qed.

Lemma filter_is_remove_cons name e evs :
  filter (is_remove name) (e :: evs) =
  if is_remove name e then e :: filter (is_remove name) evs
  else filter (is_remove name) evs.
Proof. rewrite filter_cons. destruct (is_remove name e); by case_decide. Qed.

Lemma remove_loop_events networkIDMap entries w :
  Forall (remove_event networkIDMap entries)
    (events (remove_loop networkIDMap entries w)).
Proof.
  revert w. induction entries as [|[name services] entries IH]; intros w.
  { constructor. }
  assert (∀ e, remove_event networkIDMap entries e →
               remove_event networkIDMap ((name, services) :: entries) e)
    as Hmono.
  { intros []; cbn; set_solver. }
  rewrite remove_loop_cons. cbn zeta.
  destruct (docker_RemoveContainerIfRequired _ _ _ _) as [[e|] w1];
    cbn [fst snd].
  - repeat constructor.
  - rewrite prepend_events. constructor; [split; [left|done]|].
    eapply Forall_impl; [apply IH|exact Hmono].
Qed.

Lemma remove_loop_fresh networkIDMap entries w name :
  name ∉ entries.*1 →
  filter (is_remove name) (events (remove_loop networkIDMap entries w)) = [].
Proof.
  intros Hn. pose proof (remove_loop_events networkIDMap entries w) as H.
  induction H as [|e evs He _ IH]; [done|].
  rewrite filter_is_remove_cons, IH.
  destruct e; cbn in *; try done. case_bool_decide; [|done]. subst.
  destruct He as [He _]. by apply (list_elem_of_fmap_2 fst) in He.
Qed.

Lemma remove_loop_spec networkIDMap entries w name :
  NoDup entries.*1 →
  length (filter (is_remove name)
            (events (remove_loop networkIDMap entries w))) ≤ 1 ∧
  (res (remove_loop networkIDMap entries w) = Done () →
   ∀ services, (name, services) ∈ entries →
     filter (is_remove name) (events (remove_loop networkIDMap entries w))
     = [CallRemoveContainerIfRequired name
          (default EmptyString (networkIDMap !! name)) services None]).
Proof.
  revert w. induction entries as [|[n s] entries IH]; intros w.
  { intros _. cbn. split; [lia|]. by intros _ ? ?%elem_of_nil. }
  cbn [fmap list_fmap fst]. intros [Hn Hnd]%NoDup_cons.
  rewrite remove_loop_cons. cbn zeta.
  destruct (docker_RemoveContainerIfRequired _ _ _ _) as [[e|] w1];
    cbn [fst snd events res].
  { rewrite !filter_is_remove_cons. cbn. split; [case_bool_decide; cbn; lia|].
    done. }
  rewrite prepend_events, prepend_res. cbn [app].
  rewrite filter_is_remove_cons. cbn.
  destruct (IH w1 Hnd) as [Hle Hdone]. case_bool_decide as Hname.
  - subst n. rewrite remove_loop_fresh by done. split; [cbn; lia|].
    intros _ services [[= ->]|Hin]%elem_of_cons; [done|].
    by apply (list_elem_of_fmap_2 fst) in Hin.
  - split; [done|]. intros Hres services [[= -> ->]|Hin]%elem_of_cons;
      [done|by apply Hdone].
Qed.

(** A removal that fails is the last call of the loop: the error is logged
    as fatal and the process exits. *)
Lemma remove_loop_failure networkIDMap entries w name id services err :
  CallRemoveContainerIfRequired name id services (Some err)
    ∈ events (remove_loop networkIDMap entries w) →
  res (remove_loop networkIDMap entries w) = Exit ∧
  ∃ pre, events (remove_loop networkIDMap entries w) =
         pre ++ [CallRemoveContainerIfRequired name id services (Some err);
                 Log FatalLevel err].
Proof.
  revert w. induction entries as [|[n s] entries IH]; intros w.
  { by intros ?%elem_of_nil. }
  rewrite remove_loop_cons. cbn zeta.
  destruct (docker_RemoveContainerIfRequired _ _ _ _) as [[e|] w1];
    cbn [fst snd events res].
  - rewrite !elem_of_cons, elem_of_nil. intros [H|[H|[]]]; [|done].
    injection H as <- <- <- <-. split; [done|]. by exists [].
  - rewrite prepend_events, prepend_res. cbn [app].
    rewrite elem_of_cons. intros [H|Hin]; [done|].
    destruct (IH w1 Hin) as [Hres [pre Hpre]]. split; [done|].
    exists (CallRemoveContainerIfRequired n
              (default EmptyString (networkIDMap !! n)) s None :: pre).
    by rewrite Hpre.
Qed.

Lemma verifyContainerConfig_run appConfig project networkIDMap w :
  size networkIDMap ≠ 0 →
  verifyContainerConfig appConfig project networkIDMap w =
  let c := createNetworkServiceMap appConfig project networkIDMap w in
  match res c with
  | Done m =>
      prepend (events c)
        (remove_loop networkIDMap
           (map_range (list string) m (world c)).1
           (map_range (list string) m (world c)).2)
  | Exit => mkOut (events c) (world c) Exit
  end.
Proof.
  intros Hsize. unfold verifyContainerConfig. rewrite decide_False by done.
  rewrite bind_run. cbn zeta. destruct (res _) as [m|]; [|done].
  rewrite bind_run, range_run. cbn [res events world].
  by rewrite prepend_nil.
Qed.

Lemma parse_events_no_remove evs name :
  Forall parse_event evs → filter (is_remove name) evs = [].
Proof.
  induction 1 as [|e evs He _ IH]; [done|].
  rewrite filter_is_remove_cons, IH. by destruct e.
Qed.

Lemma remove_events_parsed networkIDMap entries evs :
  Forall (remove_event networkIDMap entries) evs → parsed evs = [].
Proof.
  induction 1 as [|e evs He _ IH]; [done|].
  destruct e; try done; cbn in *; by rewrite ?IH.
Qed.

Lemma parsed_app evs1 evs2 : parsed (evs1 ++ evs2) = parsed evs1 ++ parsed evs2.
Proof. apply omap_app. Qed.

Lemma createNetworkServiceMap_events devConfig project networkIDMap w :
  Forall parse_event
    (events (createNetworkServiceMap devConfig project networkIDMap w)).
Proof. apply compose_files_loop_spec. Qed.

(** What [verifyContainerConfig] asks the container runtime to remove. *)
Lemma verifyContainerConfig_spec appConfig project networkIDMap w :
  let o := verifyContainerConfig appConfig project networkIDMap w in
  let deps name := dependents name (parsed (events o)) in
  (∀ name id services err,
     CallRemoveContainerIfRequired name id services err ∈ events o →
     networkIDMap !! name = Some id ∧ services = deps name ∧
     services ≠ []) ∧
  (∀ name, length (filter (is_remove name) (events o)) ≤ 1) ∧
  (∀ name, deps name = [] → filter (is_remove name) (events o) = []) ∧
  (res o = Done () →
   ∀ name id, networkIDMap !! name = Some id → deps name ≠ [] →
     filter (is_remove name) (events o)
     = [CallRemoveContainerIfRequired name id (deps name) None]) ∧
  (∀ name id services err,
     CallRemoveContainerIfRequired name id services (Some err) ∈ events o →
     res o = Exit ∧
     ∃ pre, events o =
            pre ++ [CallRemoveContainerIfRequired name id services (Some err);
                    Log FatalLevel err]).
Proof.
  cbn zeta. destruct (decide (size networkIDMap = 0)) as [Hsize|Hsize].
  { unfold verifyContainerConfig. rewrite decide_True by done. cbn.
    split_and!; try done; try (by intros ???? ?%elem_of_nil).
    intros _. lia. }
  rewrite verifyContainerConfig_run by done. cbn zeta.
  pose proof (createNetworkServiceMap_events appConfig project networkIDMap w)
    as Hc.
  pose proof (createNetworkServiceMap_spec appConfig project networkIDMap w)
    as Hspec. cbn zeta in Hspec.
  destruct (res (createNetworkServiceMap appConfig project networkIDMap w))
    as [m|] eqn:Hres; cbn [events res].
  2:{ assert (∀ name id services err,
        CallRemoveContainerIfRequired name id services err
          ∉ events (createNetworkServiceMap appConfig project networkIDMap w))
        as Hno.
      { intros name id services err Hin.
        rewrite Forall_forall in Hc. by apply Hc in Hin. }
      split_and!; try done.
      - intros ???? Hin. by apply Hno in Hin.
      - intros name. rewrite parse_events_no_remove by done. cbn. lia.
      - intros name _. by apply parse_events_no_remove.
      - intros ???? Hin. by apply Hno in Hin. }
  destruct (Hspec m eq_refl) as [Hdom Hm]. clear Hspec.
  set (c := createNetworkServiceMap appConfig project networkIDMap w) in *.
  set (entries := (map_range (list string) m (world c)).1).
  set (w1 := (map_range (list string) m (world c)).2).
  pose proof (remove_loop_events networkIDMap entries w1) as Hr.
  assert (NoDup entries.*1) as Hnd by apply map_range_NoDup.
  rewrite prepend_events, prepend_res.
  assert (parsed (events c ++ events (remove_loop networkIDMap entries w1))
          = parsed (events c)) as Hparsed.
  { by rewrite parsed_app, (remove_events_parsed _ _ _ Hr), app_nil_r. }
  rewrite Hparsed.
  assert (∀ name, filter (is_remove name)
            (events c ++ events (remove_loop networkIDMap entries w1))
          = filter (is_remove name)
              (events (remove_loop networkIDMap entries w1))) as Hfilter.
  { intros name. by rewrite filter_app, parse_events_no_remove. }
  assert (∀ name services, (name, services) ∈ entries ↔
            name ∈ dom networkIDMap ∧
            dependents name (parsed (events c)) ≠ [] ∧
            services = dependents name (parsed (events c))) as Hentries.
  { intros name services. unfold entries. rewrite map_range_elem_of, Hm.
    case_decide; naive_solver. }
  split_and!.
  - intros name id services err [Hin|Hin]%elem_of_app.
    { rewrite Forall_forall in Hc. by apply Hc in Hin. }
    rewrite Forall_forall in Hr. apply Hr in Hin as [Hin ->].
    apply Hentries in Hin as (Hdecl & Hne & ->).
    apply elem_of_dom in Hdecl as [id Hid]. by rewrite Hid.
  - intros name. rewrite Hfilter. by apply remove_loop_spec.
  - intros name Hdeps. rewrite Hfilter. apply remove_loop_fresh.
    intros ([n s] & -> & Hin)%list_elem_of_fmap.
    apply Hentries in Hin. naive_solver.
  - intros Hdone name id Hid Hdeps. rewrite Hfilter.
    destruct (remove_loop_spec networkIDMap entries w1 name Hnd) as [_ Hone].
    rewrite (Hone Hdone (dependents name (parsed (events c)))).
    + by rewrite Hid.
    + apply Hentries. split_and!; [by apply elem_of_dom|done|done].
  - intros name id services err [Hin|Hin]%elem_of_app.
    { rewrite Forall_forall in Hc. by apply Hc in Hin. }
    destruct (remove_loop_failure _ _ _ _ _ _ _ Hin) as [Hexit [pre Hpre]].
    split; [done|]. exists (events c ++ pre).
    by rewrite Hpre, (assoc_L (++)).
Qed.

(** C8. In [verifyContainerConfig] a removal is asked for only for a declared
    network with dependent services in the parsed compose files, with the
    current identifier of the network and the list of its dependents, and at
    most once per network; a network without dependents gets none; when the
    run goes through, every declared network with dependents gets exactly
    one; and a removal that fails is followed by the fatal log line and the
    exit of the process, and by nothing else. *)
Theorem verifyContainerConfig_removals appConfig project networkIDMap w :
  let o := verifyContainerConfig appConfig project networkIDMap w in
  let deps name := dependents name (parsed (events o)) in
  (∀ name id services err,
     CallRemoveContainerIfRequired name id services err ∈ events o →
     networkIDMap !! name = Some id ∧ services = deps name ∧
     services ≠ []) ∧
  (∀ name, length (filter (is_remove name) (events o)) ≤ 1) ∧
  (∀ name, deps name = [] → filter (is_remove name) (events o) = []) ∧
  (res o = Done () →
   ∀ name id, networkIDMap !! name = Some id → deps name ≠ [] →
     filter (is_remove name) (events o)
     = [CallRemoveContainerIfRequired name id (deps name) None]) ∧
  (∀ name id services err,
     CallRemoveContainerIfRequired name id services (Some err) ∈ events o →
     res o = Exit ∧
     ∃ pre, events o =
            pre ++ [CallRemoveContainerIfRequired name id services (Some err);
                    Log FatalLevel err]).
Proof. apply verifyContainerConfig_spec. Qed.

Lemma dependents_occurrences name svc cfgs :
  length (filter (svc =.) (dependents name cfgs)) = occurrences name svc cfgs.
Proof.
  unfold occurrences.
  induction cfgs as [|cfg cfgs IH]; [done|].
  rewrite dependents_cons, filter_app, length_app, IH.
  cbn [mbind list_bind]. rewrite filter_app, length_app. f_equal.
  unfold dependents. cbn [mbind list_bind]. rewrite app_nil_r.
  induction (Compose.Services cfg) as [|s ss IHs]; [done|].
  cbn [mbind list_bind]. rewrite filter_app, length_app, IHs.
  rewrite (filter_cons _ s). 
  destruct (decide (name ∈ dom (Service.Networks s))) as [Hin|Hin].
  - rewrite filter_cons, filter_nil.
    destruct (decide (svc = Service.Name s)) as [->|Hne].
    + by rewrite decide_True.
    + rewrite decide_False by naive_solver. done.
  - rewrite decide_False by naive_solver. done.
Qed.

Lemma serviceNetworkMap_multiplicity devConfig project networkIDMap w m
    name svc :
  res (createNetworkServiceMap devConfig project networkIDMap w) = Done m →
  name ∈ dom networkIDMap →
  length (filter (svc =.) (default [] (m !! name))) =
  occurrences name svc
    (parsed (events (createNetworkServiceMap devConfig project
                       networkIDMap w))).
Proof.
  intros Hm Hname.
  apply createNetworkServiceMap_spec in Hm as [_ Hm]. rewrite Hm.
  rewrite <-dependents_occurrences.
  destruct (dependents name _) as [|d ds] eqn:Hd.
  - by rewrite decide_False by naive_solver.
  - by rewrite decide_True.
Qed.

Lemma removal_multiplicity appConfig project networkIDMap w name id services
    err svc :
  CallRemoveContainerIfRequired name id services err
    ∈ events (verifyContainerConfig appConfig project networkIDMap w) →
  length (filter (svc =.) services) =
  occurrences name svc
    (parsed (events (verifyContainerConfig appConfig project
                       networkIDMap w))).
Proof.
  intros Hin.
  destruct (verifyContainerConfig_spec appConfig project networkIDMap w)
    as (Hrem & _). cbn zeta in Hrem.
  apply Hrem in Hin as (_ & -> & _). apply dependents_occurrences.
Qed.

(** *** Fatal log lines end the run *)

Lemma fatal_halts_cons {A} e (o : Out Opts W A) :
  is_fatal e = false → fatal_halts o → fatal_halts (prepend [e] o).
Proof.
  intros He Ho [|e' pre] msg post; cbn.
  - intros [= -> _]. done.
  - intros [= _ Heq]. by eapply Ho.
Qed.

Lemma fatal_halts_prepend {A} evs (o : Out Opts W A) :
  Forall (λ e, is_fatal e = false) evs →
  fatal_halts o → fatal_halts (prepend evs o).
Proof.
  intros Hevs Ho. induction Hevs as [|e evs He _ IH].
  - by rewrite prepend_nil.
  - change (e :: evs) with ([e] ++ evs). rewrite <-prepend_prepend.
    by apply fatal_halts_cons.
Qed.

Lemma fatal_halts_nofatal {A} (o : Out Opts W A) :
  Forall (λ e, is_fatal e = false) (events o) → fatal_halts o.
Proof.
  intros Hevs pre msg post Heq. rewrite Heq in Hevs.
  apply Forall_app in Hevs as [_ Hevs]. by apply Forall_cons in Hevs as [? _].
Qed.

Lemma fatal_halts_done {A} (o : Out Opts W A) a :
  fatal_halts o → res o = Done a →
  Forall (λ e, is_fatal e = false) (events o).
Proof.
  intros Ho Hres. apply Forall_forall. intros e Hin.
  destruct (is_fatal e) eqn:He; [|done].
  destruct e as [| | | | | |[] msg]; try done.
  apply list_elem_of_split in Hin as (pre & post & Heq).
  apply Ho in Heq as [_ Heq]. congruence.
Qed.

Lemma fatal_halts_bind {A B} (m : M (Opts:=Opts) (W:=W) A) (k : A → M B) w :
  fatal_halts (m w) → (∀ a w', fatal_halts (k a w')) →
  fatal_halts ((m ≫= k) w).
Proof.
  intros Hm Hk. rewrite bind_run. destruct (res (m w)) as [a|] eqn:Hres.
  - apply fatal_halts_prepend; [by eapply fatal_halts_done|done].
  - intros pre msg post Heq. cbn in *. apply Hm in Heq as [-> _]. done.
Qed.

Lemma fatal_halts_ret {A} (a : A) w : fatal_halts (Opts:=Opts) (ret a w).
Proof. by apply fatal_halts_nofatal. Qed.

Lemma fatal_halts_range {V} (m : gmap string V) w : fatal_halts (range m w).
Proof. by apply fatal_halts_nofatal. Qed.

Lemma fatal_halts_log_Fatal {A} msg w : fatal_halts (Opts:=Opts) (log_Fatal (A:=A) msg w).
Proof.
  intros [|e' [|??]] msg' post; cbn; intros [= ]; subst; done.
Qed.

Lemma fatal_halts_call {A} (f : W → A * W) ev w :
  (∀ a, is_fatal (ev a) = false) → fatal_halts (Opts:=Opts) (call f ev w).
Proof. intros Hev. apply fatal_halts_nofatal. cbn. by repeat constructor. Qed.

Lemma fatal_halts_log lvl msg w :
  lvl ≠ FatalLevel → fatal_halts (Opts:=Opts) (log lvl msg w).
Proof.
  intros Hlvl. apply fatal_halts_nofatal. cbn. repeat constructor.
  by destruct lvl.
Qed.

Lemma fatal_halts_runDockerCompose prefix cmd files args w :
  fatal_halts (runDockerCompose prefix cmd files args w).
Proof. apply fatal_halts_nofatal. cbn. by repeat constructor. Qed.

(** One step of the proof that a block of code halts at a fatal line:
    through a bind, or at a primitive. *)
Ltac halts_step :=
  first
    [ apply fatal_halts_ret | apply fatal_halts_range
    | apply fatal_halts_log_Fatal
    | apply fatal_halts_log; discriminate
    | apply fatal_halts_call; intros ?; reflexivity
    | apply fatal_halts_runDockerCompose
    | apply fatal_halts_bind; [|intros ??] ].

Ltac halts :=
  repeat first
    [ halts_step
    | match goal with
      | |- fatal_halts (match ?x with _ => _ end _) => destruct x
      end ].

Lemma fatal_halts_networksCreate_loop entries acc w :
  fatal_halts (networksCreate_loop entries acc w).
Proof.
  revert acc w. induction entries as [|[n opts] entries IH]; intros acc w.
  { apply fatal_halts_ret. }
  cbn [networksCreate_loop]. halts; apply IH.
Qed.

Lemma fatal_halts_networksCreate appConfig w :
  fatal_halts (networksCreate appConfig w).
Proof. unfold networksCreate. halts. apply fatal_halts_networksCreate_loop. Qed.

Lemma fatal_halts_registriesLogin_loop rs w :
  fatal_halts (registriesLogin_loop rs w).
Proof.
  revert w. induction rs as [|r rs IH]; intros w; [apply fatal_halts_ret|].
  cbn [registriesLogin_loop]. halts; apply IH.
Qed.

Lemma fatal_halts_services_loop idmap services acc w :
  fatal_halts (services_loop idmap services acc w).
Proof.
  destruct (services_loop_run idmap services acc w) as (m & w' & -> & _).
  by apply fatal_halts_nofatal.
Qed.

Lemma fatal_halts_compose_files_loop dir idmap files acc w :
  fatal_halts (compose_files_loop dir idmap files acc w).
Proof.
  revert acc w. induction files as [|f files IH]; intros acc w.
  { apply fatal_halts_ret. }
  cbn [compose_files_loop]. halts; [apply fatal_halts_services_loop|apply IH].
Qed.

Lemma fatal_halts_remove_loop idmap entries w :
  fatal_halts (remove_loop idmap entries w).
Proof.
  revert w. induction entries as [|[n s] entries IH]; intros w.
  { apply fatal_halts_ret. }
  cbn [remove_loop]. cbn zeta. halts; apply IH.
Qed.

Lemma fatal_halts_verifyContainerConfig appConfig project idmap w :
  fatal_halts (verifyContainerConfig appConfig project idmap w).
Proof.
  unfold verifyContainerConfig. halts;
    [apply fatal_halts_compose_files_loop|apply fatal_halts_remove_loop].
Qed.


(** *** registriesLogin *)

Lemma registriesLogin_loop_cons r rs w :
  registriesLogin_loop (r :: rs) w =
  let l := registry_Login (Registry.URL r) (Registry.Name r)
             (Registry.Password r) w in
  let ev := CallLogin (Registry.URL r) (Registry.Name r)
              (Registry.Password r) l.1 in
  match l.1 with
  | Some e =>
      let msg := "Failed to login to " +:+ Registry.Name r +:+
                 " registry: " +:+ e in
      if Registry.ContinueOnFailure r
      then prepend [ev; Log WarnLevel msg] (registriesLogin_loop rs l.2)
      else mkOut [ev; Log FatalLevel msg] l.2 Exit
  | None =>
      prepend [ev; Log DebugLevel
                     ("Logged in to registry " +:+ Registry.Name r +:+
                      " at " +:+ Registry.URL r)]
        (registriesLogin_loop rs l.2)
  end.
Proof.
  cbn [registriesLogin_loop].
  unfold mbind, M_bind, bind, Login, call, log, log_Fatal, ret, prepend.
  destruct (registry_Login _ _ _ w) as [[e|] w1]; cbn; [|done].
  by destruct (Registry.ContinueOnFailure r).
Qed.

Lemma registriesLogin_loop_spec rs w :
  let o := registriesLogin_loop rs w in
  Forall (λ e, is_operation e = false) (events o) ∧
  logins (events o) `prefix_of` (login_of <$> rs) ∧
  (res o = Done () → logins (events o) = login_of <$> rs) ∧
  (Forall (λ r, Registry.ContinueOnFailure r = true) rs → res o = Done ()).
Proof.
  revert w. induction rs as [|r rs IH]; intros w; cbn zeta.
  { cbn. split_and!; done. }
  rewrite registriesLogin_loop_cons. cbn zeta.
  destruct (IH (registry_Login (Registry.URL r) (Registry.Name r)
                  (Registry.Password r) w).2) as (Hev & Hpre & Hdone & Htol).
  destruct (registry_Login _ _ _ w) as [[e|] w1]; cbn [fst snd] in *;
    [destruct (Registry.ContinueOnFailure r) eqn:Hr|];
    rewrite ?prepend_events, ?prepend_res; cbn [events res app].
  - split_and!.
    + by repeat constructor.
    + by apply prefix_cons.
    + intros Hres. cbn. f_equal. by apply Hdone.
    + intros [? ?]%Forall_cons. by apply Htol.
  - split_and!.
    + by repeat constructor.
    + apply prefix_cons, prefix_nil.
    + done.
    + intros [? ?]%Forall_cons. congruence.
  - split_and!.
    + by repeat constructor.
    + by apply prefix_cons.
    + intros Hres. cbn. f_equal. by apply Hdone.
    + intros [? ?]%Forall_cons. by apply Htol.
Qed.

Lemma registriesLogin_loop_app pre post w evs w1 :
  registriesLogin_loop pre w = mkOut evs w1 (Done ()) →
  registriesLogin_loop (pre ++ post) w =
  prepend evs (registriesLogin_loop post w1).
Proof.
  revert w evs. induction pre as [|r pre IH]; intros w evs.
  { cbn. intros [= <- <-]. by rewrite prepend_nil. }
  cbn [app]. rewrite !registriesLogin_loop_cons. cbn zeta.
  destruct (registry_Login _ _ _ w) as [[e|] w2]; cbn [fst snd];
    [destruct (Registry.ContinueOnFailure r); [|done]|];
    destruct (registriesLogin_loop pre w2) as [evs' w' r'] eqn:Hpre;
    unfold prepend at 1; cbn; intros [= <- <- ->];
    rewrite (IH _ _ Hpre), prepend_prepend; done.
Qed.

(** *** Stages *)

Lemma within_app lo hi evs1 evs2 :
  within lo hi (evs1 ++ evs2) ↔ within lo hi evs1 ∧ within lo hi evs2.
Proof. apply Forall_app. Qed.

Lemma within_weaken lo hi lo' hi' evs :
  within lo hi evs → lo' ≤ lo → hi ≤ hi' → within lo' hi' evs.
Proof.
  intros H ??. eapply Forall_impl; [exact H|]. cbn.
  intros e He s Hs. apply He in Hs. lia.
Qed.






Lemma login_block_within evs :
  Forall (λ e, is_operation e = false) evs → within 0 0 evs.
Proof.
  intros H. eapply Forall_impl; [exact H|]. cbn.
  intros [] ? s; try done. by intros [= <-].
Qed.

Lemma net_event_within entries evs :
  Forall (net_event entries) evs → within 1 1 evs.
Proof.
  intros H. eapply Forall_impl; [exact H|]. cbn.
  intros [] ? s; try done; by intros [= <-].
Qed.

Lemma parse_event_within evs : Forall parse_event evs → within 2 2 evs.
Proof.
  intros H. eapply Forall_impl; [exact H|]. cbn.
  intros [] ? s; try done; by intros [= <-].
Qed.

Lemma remove_event_within idmap entries evs :
  Forall (remove_event idmap entries) evs → within 2 2 evs.
Proof.
  intros H. eapply Forall_impl; [exact H|]. cbn.
  intros [] ? s; try done; by intros [= <-].
Qed.

(** The calls of a stage are not made in the blocks of the other
    stages. *)
Lemma within_no_login lo hi evs : within lo hi evs → 1 ≤ lo → logins evs = [].
Proof.
  intros H Hlo. induction H as [|e evs He _ IH]; [done|].
  destruct e; cbn in *; try done. specialize (He _ eq_refl). cbn in He. lia.
Qed.

Lemma within_no_net lo hi evs name :
  within lo hi evs → hi < 1 ∨ 1 < lo →
  filter (is_query name) evs = [] ∧ filter (is_create name) evs = [].
Proof.
  intros H Hb. induction H as [|e evs He _ [IH1 IH2]]; [done|].
  rewrite filter_is_query_cons, filter_is_create_cons, IH1, IH2.
  destruct e; cbn in *; try done; specialize (He _ eq_refl); cbn in He; lia.
Qed.

Lemma within_no_reconcile lo hi evs name :
  within lo hi evs → hi < 2 ∨ 2 < lo →
  parses evs = [] ∧ filter (is_remove name) evs = [].
Proof.
  intros H Hb. induction H as [|e evs He _ [IH1 IH2]]; [done|].
  rewrite filter_is_remove_cons, IH2.
  destruct e; cbn in *; try done; specialize (He _ eq_refl); cbn in He; lia.
Qed.

(** *** The blocks of a run of [Up] *)

Lemma networksCreate_block appConfig w :
  let evs := events (networksCreate appConfig w) in
  within 1 1 evs ∧
  ∀ name, length (filter (is_query name) evs) ≤ 1 ∧
          length (filter (is_create name) evs) ≤ 1.
Proof.
  cbn zeta. rewrite networksCreate_run. split.
  - eapply net_event_within, networksCreate_loop_events.
  - intros name.
    destruct (networksCreate_loop_queries
      (map_range Opts (Dev.Networks appConfig) w).1 ∅
      (map_range Opts (Dev.Networks appConfig) w).2 name) as (? & ? & _);
      [apply map_range_NoDup|done].
Qed.

Lemma parses_app evs1 evs2 : parses (evs1 ++ evs2) = parses evs1 ++ parses evs2.
Proof. apply omap_app. Qed.

Lemma remove_events_parses networkIDMap entries evs :
  Forall (remove_event networkIDMap entries) evs → parses evs = [].
Proof. induction 1 as [|e evs He _ IH]; [done|]. by destruct e. Qed.

Lemma verifyContainerConfig_block appConfig project networkIDMap w :
  let evs := events (verifyContainerConfig appConfig project networkIDMap w) in
  within 2 2 evs ∧
  parses evs `prefix_of`
    (pair (Project.Directory project)
       <$> Project.DockerComposeFilenames project) ∧
  ∀ name, length (filter (is_remove name) evs) ≤ 1.
Proof.
  cbn zeta. split_and!; [| |apply verifyContainerConfig_spec].
  all: destruct (decide (size networkIDMap = 0)) as [Hsize|Hsize];
    [unfold verifyContainerConfig; rewrite decide_True by done; cbn;
     first [by constructor|apply prefix_nil]|];
    rewrite verifyContainerConfig_run by done; cbn zeta;
    pose proof (compose_files_loop_spec (Project.Directory project)
      networkIDMap (Project.DockerComposeFilenames project) ∅ w)
      as (Hev & Hpre & _); cbn zeta in Hev, Hpre;
    fold (createNetworkServiceMap appConfig project networkIDMap w)
      in Hev, Hpre;
    destruct (res (createNetworkServiceMap appConfig project networkIDMap w))
      as [m|]; cbn [events]; rewrite ?prepend_events.
  - apply within_app. split; [by apply parse_event_within|].
    eapply remove_event_within, remove_loop_events.
  - by apply parse_event_within.
  - rewrite parses_app,
      (remove_events_parses _ _ _ (remove_loop_events _ _ _)), app_nil_r.
    done.
  - done.
Qed.

(** A run of [Up] is a block of logins, then a block of network calls, then
    a block of parses and removals, then the docker-compose invocations;
    a block that exits leaves the later ones empty. *)
Lemma Up_shape appConfig project tailLogs w :
  ∃ eL eN eR eC,
    events (Up appConfig project tailLogs w) = eL ++ eN ++ eR ++ eC ∧
    (Forall (λ e, is_operation e = false) eL ∧
     logins eL `prefix_of` (login_of <$> Dev.Registries appConfig)) ∧
    (within 1 1 eN ∧
     ∀ name, length (filter (is_query name) eN) ≤ 1 ∧
             length (filter (is_create name) eN) ≤ 1) ∧
    (within 2 2 eR ∧
     parses eR `prefix_of`
       (pair (Project.Directory project)
          <$> Project.DockerComposeFilenames project) ∧
     ∀ name, length (filter (is_remove name) eR) ≤ 1) ∧
    ((eC = [] ∧ res (Up appConfig project tailLogs w) = Exit) ∨
     (Forall (λ e, is_fatal e = false) (eL ++ eN ++ eR) ∧
      ∃ b, eC = [compose_up_call appConfig project b] ∧
           res (Up appConfig project tailLogs w)
             = (if b then Done () else Exit) ∧
           (b = true → tailLogs = false)) ∨
     (Forall (λ e, is_fatal e = false) (eL ++ eN ++ eR) ∧
      tailLogs = true ∧
      ∃ b, eC = [compose_up_call appConfig project true;
                 compose_logs_call appConfig project b] ∧
           res (Up appConfig project tailLogs w)
             = (if b then Done () else Exit))).
Proof.
  assert (∀ name, length (filter (is_query name) (@nil (Event Opts))) ≤ 1 ∧
                  length (filter (is_create name) (@nil (Event Opts))) ≤ 1)
    as Hnil2 by (intros; cbn; lia).
  assert (∀ name, length (filter (is_remove name) (@nil (Event Opts))) ≤ 1)
    as Hnil1 by (intros; cbn; lia).
  unfold Up. rewrite bind_run.
  destruct (registriesLogin_loop_spec (Dev.Registries appConfig) w)
    as (HL1 & HL2 & _). cbn zeta in HL1, HL2.
  fold (registriesLogin appConfig w) in HL1, HL2.
  pose proof (fatal_halts_registriesLogin_loop (Dev.Registries appConfig) w)
    as HLf. fold (registriesLogin appConfig w) in HLf.
  set (oL := registriesLogin appConfig w) in *.
  destruct (res oL) as [[]|] eqn:HresL.
  2:{ exists (events oL), [], [], []. cbn [events res].
      rewrite !app_nil_r. split_and!; try done; try apply prefix_nil.
      - constructor.
      - constructor.
      - by left. }
  apply (fatal_halts_done _ _ HLf) in HresL as HLn.
  rewrite bind_run, prepend_events, prepend_res.
  destruct (networksCreate_block appConfig (world oL)) as [HN1 HN2].
  pose proof (fatal_halts_networksCreate appConfig (world oL)) as HNf.
  set (oN := networksCreate appConfig (world oL)) in *. cbn zeta in HN1, HN2.
  destruct (res oN) as [m|] eqn:HresN.
  2:{ exists (events oL), (events oN), [], []. cbn [events res].
      rewrite !app_nil_r. split_and!; try done; try apply prefix_nil.
      - constructor.
      - by left. }
  apply (fatal_halts_done _ _ HNf) in HresN as HNn.
  rewrite bind_run, prepend_events, prepend_res.
  destruct (verifyContainerConfig_block appConfig project m (world oN))
    as (HR1 & HR2 & HR3).
  pose proof (fatal_halts_verifyContainerConfig appConfig project m
    (world oN)) as HRf.
  set (oR := verifyContainerConfig appConfig project m (world oN)) in *.
  cbn zeta in HR1, HR2, HR3.
  destruct (res oR) as [[]|] eqn:HresR.
  2:{ exists (events oL), (events oN), (events oR), []. cbn [events res].
      rewrite !app_nil_r. split_and!; try done. by left. }
  apply (fatal_halts_done _ _ HRf) in HresR as HRn.
  assert (Forall (λ e, is_fatal e = false)
            (events oL ++ events oN ++ events oR)) as Hn.
  { by rewrite !Forall_app. }
  rewrite bind_run, prepend_events, prepend_res.
  set (oU := runDockerCompose (Dev.ImagePrefix appConfig) "up"
               (Project.DockerComposeFilenames project) ["-d"] (world oR)).
  assert (∃ b, events oU = [compose_up_call appConfig project b] ∧
               res oU = if b then Done () else Exit) as (bU & HUe & HUr).
  { eexists. split; reflexivity. }
  rewrite HUr. destruct bU; cbn [events res].
  2:{ exists (events oL), (events oN), (events oR),
        [compose_up_call appConfig project false].
      rewrite HUe. split_and!; try done. right. left. split; [done|].
      by exists false. }
  rewrite prepend_events, prepend_res, HUe.
  destruct tailLogs.
  2:{ exists (events oL), (events oN), (events oR),
        [compose_up_call appConfig project true].
      split_and!; try done. right. left. split; [done|].
      by exists true. }
  set (oT := runDockerCompose (Dev.ImagePrefix appConfig) "logs"
               (Project.DockerComposeFilenames project)
               ["-f"; Project.Name project] (world oU)).
  assert (∃ b, events oT = [compose_logs_call appConfig project b] ∧
               res oT = if b then Done () else Exit) as (bT & HTe & HTr).
  { eexists. split; reflexivity. }
  rewrite HTe, HTr.
  exists (events oL), (events oN), (events oR),
    [compose_up_call appConfig project true;
     compose_logs_call appConfig project bT].
  split_and!; try done. right. right. split_and!; [done..|].
  by exists bT.
Qed.

Lemma logins_app evs1 evs2 : logins (evs1 ++ evs2) = logins evs1 ++ logins evs2.
Proof. apply omap_app. Qed.

Lemma stage_calls_app s evs1 evs2 :
  stage_calls s (evs1 ++ evs2) = stage_calls s evs1 ++ stage_calls s evs2.
Proof. apply filter_app. Qed.

Lemma within_stage_calls lo hi evs s :
  within lo hi evs → stage_index s < lo ∨ hi < stage_index s →
  stage_calls s evs = [].
Proof.
  intros H Hs. induction H as [|e evs He _ IH]; [done|].
  unfold stage_calls in *. rewrite filter_cons, IH.
  case_decide as Hse; [|done]. apply He in Hse. lia.
Qed.

(** The docker-compose block of a run of [Up]. *)
Lemma compose_block (appConfig : Dev.t Opts) project (b b' : bool) eC :
  eC = [] ∨ eC = [compose_up_call appConfig project b] ∨
  eC = [compose_up_call appConfig project true;
        compose_logs_call appConfig project b'] →
  within 3 4 eC ∧ in_stage_order eC.
Proof.
  assert (∀ b, ∀ s, stage_of (compose_up_call appConfig project b) = Some s →
               3 ≤ stage_index s ≤ 4) as Hup.
  { intros ? s [= <-]. cbn. lia. }
  assert (∀ b, ∀ s, stage_of (compose_logs_call appConfig project b) = Some s →
               3 ≤ stage_index s ≤ 4) as Hlogs.
  { intros ? s [= <-]. cbn. lia. }
  unfold within, in_stage_order. intros [->|[->| ->]]; split.
  - apply Forall_nil_2.
  - constructor.
  - apply Forall_cons_2; [apply Hup|apply Forall_nil_2].
  - vm_compute. repeat constructor.
  - apply Forall_cons_2; [apply Hup|].
    apply Forall_cons_2; [apply Hlogs|apply Forall_nil_2].
  - vm_compute. repeat constructor.
Qed.

Lemma NoDup_filter_eq_length {A} `{EqDecision A} (x : A) (l : list A) :
  NoDup l → length (filter (x =.) l) ≤ 1.
Proof.
  induction 1 as [|y l Hy _ IH]; [cbn; lia|].
  rewrite filter_cons. case_decide as Hxy; [|done]. subst y.
  assert (filter (x =.) l = []) as ->; [|cbn; lia].
  clear IH. induction l as [|z l IHl]; [done|].
  apply not_elem_of_cons in Hy as [Hz Hl].
  rewrite filter_cons, decide_False by done. by apply IHl.
Qed.

Lemma prefix_NoDup_filter {A} `{EqDecision A} (x : A) (l1 l2 : list A) :
  l1 `prefix_of` l2 → NoDup l2 → length (filter (x =.) l1) ≤ 1.
Proof.
  intros [k ->] [Hnd _]%NoDup_app. by apply NoDup_filter_eq_length.
Qed.

Lemma filter_is_login_logins url name password evs :
  length (filter (is_login url name password) evs) =
  length (filter ((url, name, password) =.) (logins evs)).
Proof.
  induction evs as [|e evs IH]; [done|].
  rewrite filter_cons.
  destruct e as [u n p err| | | | | |];
    try (rewrite decide_False by (intros []); exact IH).
  change (logins (CallLogin u n p err :: evs)) with ((u, n, p) :: logins evs).
  rewrite filter_cons. cbn [is_login].
  destruct (decide (u = url ∧ n = name ∧ p = password)) as [(-> & -> & ->)|Hb].
  - rewrite bool_decide_true by done. do 2 rewrite decide_True by done.
    cbn. by rewrite IH.
  - rewrite bool_decide_false by done.
    rewrite (decide_False (P:=Is_true false)) by (intros []).
    rewrite decide_False by (intros [= <- <- <-]; by apply Hb). done.
Qed.

Lemma filter_is_parse_parses dir file evs :
  length (filter (is_parse dir file) evs) =
  length (filter ((dir, file) =.) (parses evs)).
Proof.
  induction evs as [|e evs IH]; [done|].
  rewrite filter_cons.
  destruct e as [| | |d f cfg err| | |];
    try (rewrite decide_False by (intros []); exact IH).
  rewrite parses_cons_parse, filter_cons. cbn [is_parse].
  destruct (decide (d = dir ∧ f = file)) as [(-> & ->)|Hb].
  - rewrite bool_decide_true by done. do 2 rewrite decide_True by done.
    cbn. by rewrite IH.
  - rewrite bool_decide_false by done.
    rewrite (decide_False (P:=Is_true false)) by (intros []).
    rewrite decide_False by (intros [= <- <-]; by apply Hb). done.
Qed.

(** C9. Nothing is retried.  In a run of [Up] the logins are made for the
    entries of the registry list, in order, each at most once (the run may
    stop before the end of the list); each network is queried at most once
    and created at most once; the parses are made for the entries of the
    list of compose files, in order, each at most once; a removal is asked
    for at most once per network; and docker-compose is invoked at most once
    for [up] and at most once for [logs].  When no registry and no compose
    file is listed twice, no login and no parse is made twice with the same
    arguments. *)
Theorem Up_no_retry appConfig project tailLogs w :
  let evs := events (Up appConfig project tailLogs w) in
  logins evs `prefix_of` (login_of <$> Dev.Registries appConfig) ∧
  (∀ name, length (filter (is_query name) evs) ≤ 1) ∧
  (∀ name, length (filter (is_create name) evs) ≤ 1) ∧
  parses evs `prefix_of`
    (pair (Project.Directory project)
       <$> Project.DockerComposeFilenames project) ∧
  (∀ name, length (filter (is_remove name) evs) ≤ 1) ∧
  length (stage_calls ComposeUp evs) ≤ 1 ∧
  length (stage_calls TailLogs evs) ≤ 1 ∧
  (NoDup (login_of <$> Dev.Registries appConfig) →
   ∀ url name password,
     length (filter (is_login url name password) evs) ≤ 1) ∧
  (NoDup (Project.DockerComposeFilenames project) →
   ∀ dir file, length (filter (is_parse dir file) evs) ≤ 1).
Proof.
  cbn zeta.
  destruct (Up_shape appConfig project tailLogs w)
    as (eL & eN & eR & eC & -> & [HL1 HL2] & [HN1 HN2] & (HR1 & HR2 & HR3)
        & HC).
  apply login_block_within in HL1.
  assert (within 3 4 eC ∧ length (stage_calls ComposeUp eC) ≤ 1 ∧
          length (stage_calls TailLogs eC) ≤ 1) as (HC1 & HC2 & HC3).
  { destruct HC as [[-> _]|[(_ & b & -> & _)|(_ & _ & b & -> & _)]].
    - split_and!; [constructor|cbn; lia..].
    - split_and!;
        [by eapply (compose_block _ _ b b); right; left|vm_compute; lia..].
    - split_and!;
        [by eapply (compose_block _ _ b b); right; right|vm_compute; lia..]. }
  assert (logins (eL ++ eN ++ eR ++ eC)
            `prefix_of` (login_of <$> Dev.Registries appConfig)) as Hlogins.
  { rewrite !logins_app.
    rewrite (within_no_login _ _ _ HN1), (within_no_login _ _ _ HR1),
      (within_no_login _ _ _ HC1) by lia.
    by rewrite !app_nil_r. }
  assert (parses (eL ++ eN ++ eR ++ eC)
            `prefix_of` (pair (Project.Directory project)
                           <$> Project.DockerComposeFilenames project))
    as Hparses.
  { rewrite !parses_app.
    rewrite (proj1 (within_no_reconcile _ _ _ EmptyString HL1 ltac:(lia))),
      (proj1 (within_no_reconcile _ _ _ EmptyString HN1 ltac:(lia))),
      (proj1 (within_no_reconcile _ _ _ EmptyString HC1 ltac:(lia))).
    by rewrite app_nil_r. }
  split_and!.
  - done.
  - intros name. rewrite !filter_app.
    rewrite (proj1 (within_no_net _ _ _ name HL1 ltac:(lia))),
      (proj1 (within_no_net _ _ _ name HR1 ltac:(lia))),
      (proj1 (within_no_net _ _ _ name HC1 ltac:(lia))).
    rewrite app_nil_r. apply HN2.
  - intros name. rewrite !filter_app.
    rewrite (proj2 (within_no_net _ _ _ name HL1 ltac:(lia))),
      (proj2 (within_no_net _ _ _ name HR1 ltac:(lia))),
      (proj2 (within_no_net _ _ _ name HC1 ltac:(lia))).
    rewrite app_nil_r. apply HN2.
  - done.
  - intros name. rewrite !filter_app.
    rewrite (proj2 (within_no_reconcile _ _ _ name HL1 ltac:(lia))),
      (proj2 (within_no_reconcile _ _ _ name HN1 ltac:(lia))),
      (proj2 (within_no_reconcile _ _ _ name HC1 ltac:(lia))).
    rewrite app_nil_r. apply HR3.
  - rewrite !stage_calls_app.
    rewrite (within_stage_calls _ _ _ ComposeUp HL1),
      (within_stage_calls _ _ _ ComposeUp HN1),
      (within_stage_calls _ _ _ ComposeUp HR1) by (cbn; lia).
    done.
  - rewrite !stage_calls_app.
    rewrite (within_stage_calls _ _ _ TailLogs HL1),
      (within_stage_calls _ _ _ TailLogs HN1),
      (within_stage_calls _ _ _ TailLogs HR1) by (cbn; lia).
    done.
  - intros Hnd url name password. rewrite filter_is_login_logins.
    by eapply prefix_NoDup_filter.
  - intros Hnd dir file. rewrite filter_is_parse_parses.
    eapply prefix_NoDup_filter; [done|].
    apply NoDup_fmap_2; [|done]. by intros ?? [= ].
Qed.


Lemma bind_run_prepend {A B} (m m' : M (Opts:=Opts) (W:=W) A)
    (k : A → M B) w w' evs :
  m w = prepend evs (m' w') →
  (m ≫= k) w = prepend evs ((m' ≫= k) w').
Proof.
  intros Hm. rewrite !bind_run, Hm, prepend_res, prepend_events,
    prepend_world.
  destruct (res (m' w')); [by rewrite prepend_prepend|done].
Qed.

(** C6. When the login to a registry fails, after the registries before it
    were gone through: if the registry is marked continue-on-failure, the
    failure is logged as a warning and the run goes on exactly as a run over
    the remaining registries does, with all its later stages; if it is not,
    the failure is logged as fatal and the process exits at once, before any
    network or container operation. *)
Theorem registry_failure_policy appConfig project tailLogs w pre r post
    evs w1 (err : string) w2 :
  Dev.Registries appConfig = pre ++ r :: post →
  registriesLogin_loop pre w = mkOut evs w1 (Done ()) →
  registry_Login (Registry.URL r) (Registry.Name r) (Registry.Password r) w1
    = (Some err, w2) →
  let attempt := CallLogin (Registry.URL r) (Registry.Name r)
                   (Registry.Password r) (Some err) in
  let msg := "Failed to login to " +:+ Registry.Name r +:+
             " registry: " +:+ err in
  (Registry.ContinueOnFailure r = true →
   Up appConfig project tailLogs w =
   prepend (evs ++ [attempt; Log WarnLevel msg])
     (Up (with_registries appConfig post) project tailLogs w2)) ∧
  (Registry.ContinueOnFailure r = false →
   Up appConfig project tailLogs w =
   mkOut (evs ++ [attempt; Log FatalLevel msg]) w2 Exit ∧
   Forall (λ e, is_operation e = false)
     (evs ++ [attempt; Log FatalLevel msg])).
Proof.
  intros Hrs Hpre Hlogin. cbn zeta.
  pose proof (registriesLogin_loop_app pre (r :: post) w evs w1 Hpre) as Hrun.
  rewrite <-Hrs, registriesLogin_loop_cons in Hrun. cbn zeta in Hrun.
  rewrite Hlogin in Hrun. cbn [fst snd] in Hrun.
  split; intros Hr; rewrite Hr in Hrun.
  - rewrite prepend_prepend in Hrun. unfold Up.
    apply (bind_run_prepend (registriesLogin appConfig)
             (registriesLogin (with_registries appConfig post))).
    exact Hrun.
  - split.
    + unfold Up. rewrite bind_run. unfold registriesLogin. by rewrite Hrun.
    + apply Forall_app. split; [|by repeat constructor].
      destruct (registriesLogin_loop_spec pre w) as [Hops _].
      cbn zeta in Hops. by rewrite Hpre in Hops.
Qed.
(** *** Further properties of networksCreate *)

Lemma networksCreate_loop_query_failure entries acc w name id err :
  CallNetworkIDFromName name id (Some err)
    ∈ events (networksCreate_loop entries acc w) →
  res (networksCreate_loop entries acc w) = Exit ∧
  ∃ pre, events (networksCreate_loop entries acc w) =
         pre ++ [CallNetworkIDFromName name id (Some err);
                 Log FatalLevel ("Error checking if network " +:+ name +:+
                                 " exists: " +:+ err)].
Proof.
  revert acc w. induction entries as [|[n opts] entries IH]; intros acc w.
  { by intros ?%elem_of_nil. }
  network_step n opts w; rewrite ?elem_of_cons, ?elem_of_nil.
  - intros [H|[H|[]]]; [|done]. injection H as <- <- <-.
    split; [done|]. by exists [].
  - intros [H|[H|[H|[H|[]]]]]; done.
  - intros [H|[H|[H|Hin]]]; try done.
    destruct (IH _ _ Hin) as [Hres [pre Hpre]]. split; [done|].
    rewrite Hpre. by eexists (_ :: _ :: _ :: pre).
  - intros [H|[H|Hin]]; try done.
    destruct (IH _ _ Hin) as [Hres [pre Hpre]]. split; [done|].
    rewrite Hpre. by eexists (_ :: _ :: pre).
Qed.

Lemma networksCreate_loop_create_failure entries acc w name opts id err :
  CallNetworkCreate name opts id (Some err)
    ∈ events (networksCreate_loop entries acc w) →
  res (networksCreate_loop entries acc w) = Exit ∧
  ∃ pre, events (networksCreate_loop entries acc w) =
         pre ++ [CallNetworkCreate name opts id (Some err);
                 Log InfoLevel ("Created " +:+ name +:+ " network " +:+ id);
                 Log FatalLevel err].
Proof.
  revert acc w. induction entries as [|[n o] entries IH]; intros acc w.
  { by intros ?%elem_of_nil. }
  network_step n o w; rewrite ?elem_of_cons, ?elem_of_nil.
  - intros [H|[H|[]]]; done.
  - intros [H|[H|[H|[H|[]]]]]; try done. injection H as <- <- <- <-.
    split; [done|]. by eexists [_].
  - intros [H|[H|[H|Hin]]]; try done.
    destruct (IH _ _ Hin) as [Hres [pre Hpre]]. split; [done|].
    rewrite Hpre. by eexists (_ :: _ :: _ :: pre).
  - intros [H|[H|Hin]]; try done.
    destruct (IH _ _ Hin) as [Hres [pre Hpre]]. split; [done|].
    rewrite Hpre. by eexists (_ :: _ :: pre).
Qed.

Lemma networksCreate_loop_create_after_query entries acc w name opts id err :
  CallNetworkCreate name opts id err
    ∈ events (networksCreate_loop entries acc w) →
  (name, opts) ∈ entries ∧
  ∃ pre post, events (networksCreate_loop entries acc w) =
              pre ++ [CallNetworkIDFromName name EmptyString None;
                      CallNetworkCreate name opts id err] ++ post.
Proof.
  revert acc w. induction entries as [|[n o] entries IH]; intros acc w.
  { by intros ?%elem_of_nil. }
  network_step n o w; rewrite ?elem_of_cons, ?elem_of_nil.
  - intros [H|[H|[]]]; done.
  - intros [H|[H|[H|[H|[]]]]]; try done. injection H as <- <- <- <-.
    subst. split; [by left|]. exists nil. by eexists.
  - intros [H|[H|[H|Hin]]]; try done.
    + injection H as <- <- <- <-. subst. split; [by left|]. exists nil. by eexists.
    + destruct (IH _ _ Hin) as [Hdecl (pre & post & Hpre)].
      split; [by right|]. rewrite Hpre. rewrite !app_comm_cons. by eexists _, post.
  - intros [H|[H|Hin]]; try done.
    destruct (IH _ _ Hin) as [Hdecl (pre & post & Hpre)].
    split; [by right|]. rewrite Hpre. rewrite !app_comm_cons. by eexists _, post.
Qed.

Lemma networksCreate_loop_provenance entries acc w m name id :
  res (networksCreate_loop entries acc w) = Done m →
  m !! name = Some id →
  ((name ∉ entries.*1) ∧ acc !! name = Some id) ∨
  (CallNetworkIDFromName name id None
     ∈ events (networksCreate_loop entries acc w) ∧ id ≠ EmptyString) ∨
  (∃ opts, CallNetworkCreate name opts id None
             ∈ events (networksCreate_loop entries acc w)).
Proof.
  revert acc w. induction entries as [|[n o] entries IH]; intros acc w.
  { cbn. intros [= ->] Hm. left. split; [apply not_elem_of_nil|done]. }
  cbn [fmap list_fmap fst].
  network_step n o w; try done; intros Hres Hm;
    destruct (IH _ _ Hres Hm) as [[Hn Hacc]|[[Hin Hid']|[opts Hin]]].
  - destruct (decide (name = n)) as [->|Hne].
    + rewrite lookup_insert_eq in Hacc. injection Hacc as ->.
      right. right. exists o. set_solver.
    + rewrite lookup_insert_ne in Hacc by done. left. set_solver.
  - right. left. split; [set_solver|done].
  - right. right. exists opts. set_solver.
  - destruct (decide (name = n)) as [->|Hne].
    + rewrite lookup_insert_eq in Hacc. injection Hacc as ->.
      right. left. split; [set_solver|done].
    + rewrite lookup_insert_ne in Hacc by done. left. set_solver.
  - right. left. split; [set_solver|done].
  - right. right. exists opts. set_solver.
Qed.

Lemma length_le_1_elem_of {A} (l : list A) x y :
  length l ≤ 1 → x ∈ l → y ∈ l → x = y.
Proof.
  destruct l as [|a [|b l]]; cbn; [by intros _ ?%elem_of_nil| |lia].
  by intros _ ->%list_elem_of_singleton ->%list_elem_of_singleton.
Qed.

(** X1. A failing existence query ends [networksCreate]: the error is logged
    as fatal, wrapped in the name of the network, the process exits, and the
    network is not created. *)
Theorem networksCreate_query_error_fatal appConfig w name id err :
  CallNetworkIDFromName name id (Some err)
    ∈ events (networksCreate appConfig w) →
  res (networksCreate appConfig w) = Exit ∧
  filter (is_create name) (events (networksCreate appConfig w)) = [] ∧
  ∃ pre, events (networksCreate appConfig w) =
         pre ++ [CallNetworkIDFromName name id (Some err);
                 Log FatalLevel ("Error checking if network " +:+ name +:+
                                 " exists: " +:+ err)].
Proof.
  rewrite networksCreate_run. intros Hin.
  destruct (networksCreate_loop_query_failure _ _ _ _ _ _ Hin) as [Hres Hpre].
  split_and!; [done| |done].
  set (o := networksCreate_loop _ _ _) in *.
  destruct (filter (is_create name) (events o)) as [|c cs] eqn:Hf; [done|].
  assert (c ∈ filter (is_create name) (events o)) as Hc
    by (rewrite Hf; left).
  apply list_elem_of_filter in Hc as [Hisc Hc].
  destruct c; try done. cbn in Hisc. apply bool_decide_unpack in Hisc as ->.
  apply networksCreate_loop_create_after_query in Hc
    as [_ (pre & post & Heq)].
  destruct (networksCreate_loop_queries
    (map_range Opts (Dev.Networks appConfig) w).1 ∅
    (map_range Opts (Dev.Networks appConfig) w).2 name
    (map_range_NoDup _ _)) as [Hle _].
  fold o in Hle, Heq.
  assert (CallNetworkIDFromName (Opts:=Opts) name id (Some err)
          = CallNetworkIDFromName name EmptyString None) as [=].
  apply (length_le_1_elem_of _ _ _ Hle); apply list_elem_of_filter.
  - split; [cbn; by apply bool_decide_pack|done].
  - split; [cbn; by apply bool_decide_pack|]. rewrite Heq. set_solver.
Qed.

(** X2. A failing creation ends [networksCreate], after the line that says
    the network was created: the creation call is followed by the "Created"
    info line, the fatal line with the error, and the exit of the process. *)
Theorem networksCreate_create_error_fatal appConfig w name opts id err :
  CallNetworkCreate name opts id (Some err)
    ∈ events (networksCreate appConfig w) →
  res (networksCreate appConfig w) = Exit ∧
  ∃ pre, events (networksCreate appConfig w) =
         pre ++ [CallNetworkCreate name opts id (Some err);
                 Log InfoLevel ("Created " +:+ name +:+ " network " +:+ id);
                 Log FatalLevel err].
Proof.
  rewrite networksCreate_run. apply networksCreate_loop_create_failure.
Qed.

(** X3. [networksCreate] touches declared networks only, and creates only
    what it just found absent: a query is for a declared network, and a
    creation is for a declared network, with its declared options, right
    after the query for that network returned the empty identifier and no
    error. *)
Theorem networksCreate_only_declared_absent appConfig w :
  (∀ name id err,
     CallNetworkIDFromName name id err
       ∈ events (networksCreate appConfig w) →
     name ∈ dom (Dev.Networks appConfig)) ∧
  (∀ name opts id err,
     CallNetworkCreate name opts id err
       ∈ events (networksCreate appConfig w) →
     Dev.Networks appConfig !! name = Some opts ∧
     ∃ pre post, events (networksCreate appConfig w) =
                 pre ++ [CallNetworkIDFromName name EmptyString None;
                         CallNetworkCreate name opts id err] ++ post).
Proof.
  rewrite networksCreate_run. split.
  - intros name id err Hin.
    eapply Forall_forall in Hin; [|apply networksCreate_loop_events].
    by apply map_range_keys in Hin.
  - intros name opts id err Hin.
    apply networksCreate_loop_create_after_query in Hin as [Hdecl Hpre].
    by apply map_range_elem_of in Hdecl.
Qed.

Lemma networksCreate_provenance appConfig w m name id :
  res (networksCreate appConfig w) = Done m →
  m !! name = Some id →
  (CallNetworkIDFromName name id None
     ∈ events (networksCreate appConfig w) ∧ id ≠ EmptyString) ∨
  (∃ opts, CallNetworkCreate name opts id None
             ∈ events (networksCreate appConfig w)).
Proof.
  rewrite networksCreate_run. intros Hres Hm.
  destruct (networksCreate_loop_provenance _ _ _ _ _ _ Hres Hm)
    as [[_ Hacc]|H]; [done|exact H].
Qed.

(** X4. Every identifier in the map that [networksCreate] returns is the one
    the existence query found (non-empty), or the one the creation
    returned without error. *)
Theorem networksCreate_identifier_provenance appConfig w m name id :
  res (networksCreate appConfig w) = Done m →
  m !! name = Some id →
  (CallNetworkIDFromName name id None
     ∈ events (networksCreate appConfig w) ∧ id ≠ EmptyString) ∨
  (∃ opts, CallNetworkCreate name opts id None
             ∈ events (networksCreate appConfig w)).
Proof. apply networksCreate_provenance. Qed.

(** *** Further properties of registriesLogin *)

Lemma registriesLogin_loop_exit rs w :
  res (registriesLogin_loop rs w) = Exit →
  ∃ pre r post evs err,
    rs = pre ++ r :: post ∧
    Registry.ContinueOnFailure r = false ∧
    logins evs = login_of <$> pre ∧
    events (registriesLogin_loop rs w) =
    evs ++ [CallLogin (Registry.URL r) (Registry.Name r)
              (Registry.Password r) (Some err);
            Log FatalLevel ("Failed to login to " +:+ Registry.Name r +:+
                            " registry: " +:+ err)].
Proof.
  revert w. induction rs as [|r rs IH]; intros w; [done|].
  rewrite registriesLogin_loop_cons. cbn zeta.
  destruct (registry_Login _ _ _ w) as [[e|] w1]; cbn [fst snd];
    [destruct (Registry.ContinueOnFailure r) eqn:Hr|];
    rewrite ?prepend_events, ?prepend_res; cbn [events res app].
  - intros (pre & r' & post & evs & err & -> & Hr' & Hl & ->)%IH.
    eexists (r :: pre), r', post, (_ :: _ :: evs), err.
    split_and!; [done|done| |done]. by rewrite fmap_cons, <-Hl.
  - intros _. by exists [], r, rs, [], e.
  - intros (pre & r' & post & evs & err & -> & Hr' & Hl & ->)%IH.
    eexists (r :: pre), r', post, (_ :: _ :: evs), err.
    split_and!; [done|done| |done]. by rewrite fmap_cons, <-Hl.
Qed.

(** X5. When every registry is marked continue-on-failure, [registriesLogin]
    always returns: it attempts every registry of the list, once and in
    order, and logs no fatal line, whatever the logins answer. *)
Theorem registriesLogin_tolerant_never_exits appConfig w :
  Forall (λ r, Registry.ContinueOnFailure r = true)
    (Dev.Registries appConfig) →
  res (registriesLogin appConfig w) = Done () ∧
  logins (events (registriesLogin appConfig w))
    = login_of <$> Dev.Registries appConfig ∧
  Forall (λ e, is_fatal e = false) (events (registriesLogin appConfig w)).
Proof.
  intros Htol. unfold registriesLogin.
  destruct (registriesLogin_loop_spec (Dev.Registries appConfig) w)
    as (_ & _ & Hdone & Hres). cbn zeta in *.
  specialize (Hres Htol). split_and!; [done|by apply Hdone|].
  eapply fatal_halts_done; [apply fatal_halts_registriesLogin_loop|done].
Qed.

(** X6. [registriesLogin] exits only at a registry that is not marked
    continue-on-failure and whose login failed: the registries before it
    were attempted, once and in order, the failed attempt and its fatal line
    end the trace, and no registry after it is attempted.  When it returns,
    every registry of the list was attempted, once and in order. *)
Theorem registriesLogin_exit_cause appConfig w :
  (res (registriesLogin appConfig w) = Exit →
   ∃ pre r post evs err,
     Dev.Registries appConfig = pre ++ r :: post ∧
     Registry.ContinueOnFailure r = false ∧
     logins evs = login_of <$> pre ∧
     events (registriesLogin appConfig w) =
     evs ++ [CallLogin (Registry.URL r) (Registry.Name r)
               (Registry.Password r) (Some err);
             Log FatalLevel ("Failed to login to " +:+ Registry.Name r +:+
                             " registry: " +:+ err)]) ∧
  (res (registriesLogin appConfig w) = Done () →
   logins (events (registriesLogin appConfig w))
     = login_of <$> Dev.Registries appConfig).
Proof.
  unfold registriesLogin. split.
  - apply registriesLogin_loop_exit.
  - apply (registriesLogin_loop_spec (Dev.Registries appConfig) w).
Qed.

(** *** Further properties of createNetworkServiceMap and
    verifyContainerConfig *)

Lemma dependents_nonempty name cfgs :
  dependents name cfgs ≠ [] ↔
  ∃ cfg svc, cfg ∈ cfgs ∧ svc ∈ Compose.Services cfg ∧
             name ∈ dom (Service.Networks svc).
Proof.
  unfold dependents. split.
  - intros Hne. destruct (cfgs ≫= _) as [|s l] eqn:Hd; [done|].
    assert (s ∈ s :: l) as Hs by left. rewrite <-Hd in Hs.
    apply list_elem_of_bind in Hs as (cfg & Hs & Hcfg).
    apply list_elem_of_bind in Hs as (svc & Hs & Hsvc).
    exists cfg, svc. split_and!; [done..|].
    destruct (decide (name ∈ dom (Service.Networks svc))); [done|].
    by apply elem_of_nil in Hs.
  - intros (cfg & svc & Hcfg & Hsvc & Hname) Hnil.
    assert (Service.Name svc ∈ (cfgs ≫= λ cfg, Compose.Services cfg ≫= λ svc,
              if decide (name ∈ dom (Service.Networks svc))
              then [Service.Name svc] else [])) as Hin.
    { apply list_elem_of_bind. exists cfg. split; [|done].
      apply list_elem_of_bind. exists svc. split; [|done].
      rewrite decide_True by done. left. }
    rewrite Hnil in Hin. by apply elem_of_nil in Hin.
Qed.

(** X7. When [createNetworkServiceMap] returns, every compose file of the
    project was parsed, once and in order; a network is a key of the map
    exactly when it is declared and some service of a parsed file references
    it; and its list is never empty: it holds the names of the services that
    reference it, in the order of the files and of the services in them,
    whatever the order in which the networks of a service are visited. *)
Theorem createNetworkServiceMap_exact devConfig project networkIDMap w m :
  let o := createNetworkServiceMap devConfig project networkIDMap w in
  res o = Done m →
  parses (events o)
    = (pair (Project.Directory project)
         <$> Project.DockerComposeFilenames project) ∧
  (∀ name, is_Some (m !! name) ↔
           name ∈ dom networkIDMap ∧
           ∃ cfg svc, cfg ∈ parsed (events o) ∧
                      svc ∈ Compose.Services cfg ∧
                      name ∈ dom (Service.Networks svc)) ∧
  (∀ name services,
     m !! name = Some services →
     services ≠ [] ∧ services = dependents name (parsed (events o))).
Proof.
  cbn zeta. intros Hres.
  destruct (createNetworkServiceMap_spec _ _ _ _ _ Hres) as [_ Hm].
  split_and!.
  - destruct (compose_files_loop_spec (Project.Directory project)
      networkIDMap (Project.DockerComposeFilenames project) ∅ w)
      as (_ & _ & Hdone).
    by destruct (Hdone m Hres) as (? & _).
  - intros name. rewrite Hm, <-dependents_nonempty.
    case_decide; [|rewrite <-not_eq_None_Some]; naive_solver.
  - intros name services. rewrite Hm. case_decide; naive_solver.
Qed.

Lemma compose_files_loop_failure dir idmap files acc w d f cfg err :
  CallParse d f cfg (Some err)
    ∈ events (compose_files_loop dir idmap files acc w) →
  res (compose_files_loop dir idmap files acc w) = Exit ∧
  ∃ pre, events (compose_files_loop dir idmap files acc w) =
         pre ++ [CallParse d f cfg (Some err);
                 Log FatalLevel
                   ("Failed to parse docker-compose appConfig file: " +:+
                    err)].
Proof.
  revert acc w. induction files as [|file files IH]; intros acc w.
  { by intros ?%elem_of_nil. }
  rewrite compose_files_loop_cons. cbn zeta.
  destruct (compose_Parse dir file w) as [[c [e|]] w1]; cbn [fst snd].
  - cbn [events res]. rewrite !elem_of_cons, elem_of_nil.
    intros [H|[H|[]]]; [|done]. injection H as <- <- <- <-.
    split; [done|]. by exists nil.
  - destruct (services_loop_run idmap (Compose.Services c) acc w1)
      as (m1 & w2 & Hrun & _).
    rewrite bind_run, Hrun. cbn [res events world].
    rewrite prepend_nil, prepend_events, prepend_res. cbn [app].
    rewrite elem_of_cons. intros [H|Hin]; [done|].
    destruct (IH _ _ Hin) as [Hres [pre Hpre]]. split; [done|].
    rewrite Hpre, app_comm_cons. by eexists.
Qed.

(** X8. [verifyContainerConfig] parses before it removes: its trace is a part
    without removal calls followed by a part without parse calls.  A compose
    file that fails to parse ends the run with the fatal line and the exit
    of the process, and then no removal was asked for at all. *)
Theorem verifyContainerConfig_parse_first appConfig project networkIDMap w :
  let o := verifyContainerConfig appConfig project networkIDMap w in
  (∃ eP eR, events o = eP ++ eR ∧
            (∀ name, filter (is_remove name) eP = []) ∧ parses eR = []) ∧
  (∀ d f cfg err,
     CallParse d f cfg (Some err) ∈ events o →
     res o = Exit ∧
     (∀ name, filter (is_remove name) (events o) = []) ∧
     ∃ pre, events o =
            pre ++ [CallParse d f cfg (Some err);
                    Log FatalLevel
                      ("Failed to parse docker-compose appConfig file: " +:+
                       err)]).
Proof.
  cbn zeta. destruct (decide (size networkIDMap = 0)) as [Hsize|Hsize].
  { unfold verifyContainerConfig. rewrite decide_True by done. cbn.
    split; [by exists [], []|]. by intros ???? ?%elem_of_nil. }
  rewrite verifyContainerConfig_run by done. cbn zeta.
  pose proof (createNetworkServiceMap_events appConfig project networkIDMap w)
    as Hc.
  set (c := createNetworkServiceMap appConfig project networkIDMap w) in *.
  destruct (res c) as [m|] eqn:Hres; cbn [events res].
  - rewrite prepend_events, prepend_res.
    set (r := remove_loop networkIDMap _ _).
    assert (Forall (remove_event networkIDMap
                      (map_range (list string) m (world c)).1) (events r))
      as Hr by apply remove_loop_events.
    split.
    + exists (events c), (events r). split_and!; [done| |].
      * intros name. by apply parse_events_no_remove.
      * by eapply remove_events_parses.
    + intros d f cfg err [Hin|Hin]%elem_of_app.
      * apply compose_files_loop_failure in Hin as [Hexit _].
        fold (createNetworkServiceMap appConfig project networkIDMap w)
          in Hexit. fold c in Hexit. congruence.
      * rewrite Forall_forall in Hr. by apply Hr in Hin.
  - split.
    + exists (events c), []. rewrite app_nil_r. split_and!; [done| |done].
      intros name. by apply parse_events_no_remove.
    + intros d f cfg err Hin. split_and!; [done| |].
      * intros name. by apply parse_events_no_remove.
      * by apply compose_files_loop_failure in Hin as [_ Hpre].
Qed.

(** *** Further properties of Up *)

(** The blocks of a run of [Up], with the map that links the network block
    to the reconciliation block. *)
Lemma Up_blocks appConfig project tailLogs w :
  let oL := registriesLogin appConfig w in
  let oN := networksCreate appConfig (world oL) in
  ∃ eN eR eC,
    events (Up appConfig project tailLogs w) = events oL ++ eN ++ eR ++ eC ∧
    (∃ b b', eC = [] ∨ eC = [compose_up_call appConfig project b] ∨
             eC = [compose_up_call appConfig project true;
                   compose_logs_call appConfig project b']) ∧
    ((eN = [] ∧ eR = [] ∧ res oL = Exit) ∨
     (eN = events oN ∧ res oL = Done () ∧
      ((eR = [] ∧ res oN = Exit ∧
        res (Up appConfig project tailLogs w) = Exit) ∨
       (∃ m, res oN = Done m ∧
             eR = events (verifyContainerConfig appConfig project m
                            (world oN)) ∧
             (res (Up appConfig project tailLogs w) = Done () →
              res (verifyContainerConfig appConfig project m (world oN))
              = Done ()))))).
Proof.
  cbn zeta. unfold Up. rewrite bind_run.
  set (oL := registriesLogin appConfig w).
  destruct (res oL) as [[]|] eqn:HresL.
  2:{ exists [], [], []. cbn [events]. rewrite !app_nil_r.
      split_and!; [done|by exists true, true; left|by left]. }
  rewrite bind_run, prepend_events, prepend_res.
  set (oN := networksCreate appConfig (world oL)).
  destruct (res oN) as [m|] eqn:HresN.
  2:{ exists (events oN), [], []. cbn [events res]. rewrite !app_nil_r.
      split_and!; [done|by exists true, true; left|]. right. split_and!; [done..|].
      by left. }
  rewrite bind_run, prepend_events, prepend_res.
  set (oR := verifyContainerConfig appConfig project m (world oN)).
  destruct (res oR) as [[]|] eqn:HresR.
  2:{ exists (events oN), (events oR), []. cbn [events res].
      rewrite !app_nil_r. split_and!; [done|by exists true, true; left|].
      right. split_and!; [done..|]. right. by exists m. }
  rewrite bind_run, prepend_events, prepend_res.
  set (oU := runDockerCompose (Dev.ImagePrefix appConfig) "up"
               (Project.DockerComposeFilenames project) ["-d"] (world oR)).
  assert (∃ b, events oU = [compose_up_call appConfig project b] ∧
               res oU = if b then Done () else Exit) as (bU & HUe & HUr).
  { eexists. split; reflexivity. }
  rewrite HUr. destruct bU; cbn [events res].
  2:{ exists (events oN), (events oR),
        [compose_up_call appConfig project false].
      rewrite HUe. split_and!; [done| |].
      - exists false, false. right. by left.
      - right. split_and!; [done..|]. right. by exists m. }
  rewrite prepend_events, prepend_res, HUe.
  destruct tailLogs.
  2:{ exists (events oN), (events oR),
        [compose_up_call appConfig project true].
      split_and!; [done| |].
      - exists true, true. right. by left.
      - right. split_and!; [done..|]. right. by exists m. }
  set (oT := runDockerCompose (Dev.ImagePrefix appConfig) "logs"
               (Project.DockerComposeFilenames project)
               ["-f"; Project.Name project] (world oU)).
  assert (∃ b, events oT = [compose_logs_call appConfig project b])
    as (bT & HTe).
  { eexists. reflexivity. }
  rewrite HTe.
  exists (events oN), (events oR),
    [compose_up_call appConfig project true;
     compose_logs_call appConfig project bT].
  split_and!; [done| |].
  - exists true, bT. right. by right.
  - right. split_and!; [done..|]. right. by exists m.
Qed.

Lemma within_no_parsed lo hi evs :
  within lo hi evs → hi < 2 ∨ 2 < lo → parsed evs = [].
Proof.
  intros H Hb. induction H as [|e evs He _ IH]; [done|].
  destruct e; cbn in *; try done. specialize (He _ eq_refl). cbn in He. lia.
Qed.

Lemma registriesLogin_within appConfig w :
  within 0 0 (events (registriesLogin appConfig w)).
Proof.
  apply login_block_within.
  apply (registriesLogin_loop_spec (Dev.Registries appConfig) w).
Qed.

(** Where the calls of the network and reconciliation stages are in a run
    of [Up]. *)
Lemma Up_blocks_located appConfig project tailLogs w eN eR eC :
  events (Up appConfig project tailLogs w)
    = events (registriesLogin appConfig w) ++ eN ++ eR ++ eC →
  within 1 1 eN → within 2 2 eR → within 3 4 eC →
  (∀ e, e ∈ events (Up appConfig project tailLogs w) →
        stage_of e = Some EnsureNetworks → e ∈ eN) ∧
  (∀ e, e ∈ events (Up appConfig project tailLogs w) →
        stage_of e = Some ReconcileContainers → e ∈ eR) ∧
  (∀ name, filter (is_remove name) (events (Up appConfig project tailLogs w))
           = filter (is_remove name) eR) ∧
  parsed (events (Up appConfig project tailLogs w)) = parsed eR.
Proof.
  intros -> HN HR HC.
  pose proof (registriesLogin_within appConfig w) as HL.
  assert (∀ lo hi evs e s, within lo hi evs → e ∈ evs →
            stage_of e = Some s → lo ≤ stage_index s ≤ hi) as Hin.
  { intros lo hi evs e s H He Hs. unfold within in H.
    rewrite Forall_forall in H. by apply (H e). }
  split_and!.
  - intros e He Hs. rewrite !elem_of_app in He.
    destruct He as [He|[He|[He|He]]]; [|done|..].
    + pose proof (Hin _ _ _ _ _ HL He Hs) as Hb. cbn in Hb. lia.
    + pose proof (Hin _ _ _ _ _ HR He Hs) as Hb. cbn in Hb. lia.
    + pose proof (Hin _ _ _ _ _ HC He Hs) as Hb. cbn in Hb. lia.
  - intros e He Hs. rewrite !elem_of_app in He.
    destruct He as [He|[He|[He|He]]]; [| |done|].
    + pose proof (Hin _ _ _ _ _ HL He Hs) as Hb. cbn in Hb. lia.
    + pose proof (Hin _ _ _ _ _ HN He Hs) as Hb. cbn in Hb. lia.
    + pose proof (Hin _ _ _ _ _ HC He Hs) as Hb. cbn in Hb. lia.
  - intros name. rewrite !filter_app.
    rewrite (proj2 (within_no_reconcile _ _ _ name HL ltac:(lia))),
      (proj2 (within_no_reconcile _ _ _ name HN ltac:(lia))),
      (proj2 (within_no_reconcile _ _ _ name HC ltac:(lia))).
    by rewrite app_nil_r.
  - rewrite !parsed_app.
    rewrite (within_no_parsed _ _ _ HL), (within_no_parsed _ _ _ HN),
      (within_no_parsed _ _ _ HC) by lia.
    by rewrite app_nil_r.
Qed.

(** *** How a run ends *)

Lemma exits_loudly_done {A} (o : Out Opts W A) a :
  res o = Done a → exits_loudly o.
Proof. intros H H'. congruence. Qed.

Lemma exits_loudly_bind {A B} (m : M (Opts:=Opts) (W:=W) A) (k : A → M B) w :
  exits_loudly (m w) → (∀ a w', exits_loudly (k a w')) →
  exits_loudly ((m ≫= k) w).
Proof.
  intros Hm Hk. rewrite bind_run. destruct (res (m w)) as [a|] eqn:Hres.
  - intros Hexit. rewrite prepend_res in Hexit.
    destruct (Hk _ _ Hexit) as (pre & e & Heq & He).
    exists (events (m w) ++ pre), e.
    by rewrite prepend_events, Heq, app_assoc.
  - intros _. cbn [events]. by apply Hm.
Qed.

Lemma exits_loudly_log_Fatal {A} msg w :
  exits_loudly (Opts:=Opts) (log_Fatal (A:=A) msg w).
Proof. intros _. exists [], (Log FatalLevel msg). split; [done|by left]. Qed.

Lemma exits_loudly_runDockerCompose prefix cmd files args w :
  exits_loudly (runDockerCompose prefix cmd files args w).
Proof.
  unfold exits_loudly, runDockerCompose. cbn.
  destruct (exec_runDockerCompose prefix cmd files args w) as [[] w'];
    cbn; intros Hexit; [done|].
  eexists [], _. split; [done|by right].
Qed.

Ltac loud_step :=
  first
    [ by eapply exits_loudly_done
    | apply exits_loudly_log_Fatal
    | apply exits_loudly_runDockerCompose
    | apply exits_loudly_bind; [|intros ??] ].

Ltac loud :=
  repeat first
    [ loud_step
    | match goal with
      | |- exits_loudly (match ?x with _ => _ end _) => destruct x
      end ].

Lemma exits_loudly_networksCreate_loop entries acc w :
  exits_loudly (networksCreate_loop entries acc w).
Proof.
  revert acc w. induction entries as [|[n opts] entries IH]; intros acc w.
  { by eapply exits_loudly_done. }
  cbn [networksCreate_loop]. loud; apply IH.
Qed.

Lemma exits_loudly_registriesLogin_loop rs w :
  exits_loudly (registriesLogin_loop rs w).
Proof.
  revert w. induction rs as [|r rs IH]; intros w;
    [by eapply exits_loudly_done|].
  cbn [registriesLogin_loop]. loud; apply IH.
Qed.

Lemma exits_loudly_services_loop idmap services acc w :
  exits_loudly (services_loop idmap services acc w).
Proof.
  destruct (services_loop_run idmap services acc w) as (m & w' & -> & _).
  by eapply exits_loudly_done.
Qed.

Lemma exits_loudly_compose_files_loop dir idmap files acc w :
  exits_loudly (compose_files_loop dir idmap files acc w).
Proof.
  revert acc w. induction files as [|f files IH]; intros acc w.
  { by eapply exits_loudly_done. }
  cbn [compose_files_loop]. loud;
    [apply exits_loudly_services_loop|apply IH].
Qed.

Lemma exits_loudly_remove_loop idmap entries w :
  exits_loudly (remove_loop idmap entries w).
Proof.
  revert w. induction entries as [|[n s] entries IH]; intros w.
  { by eapply exits_loudly_done. }
  cbn [remove_loop]. cbn zeta. loud; apply IH.
Qed.

Lemma exits_loudly_verifyContainerConfig appConfig project idmap w :
  exits_loudly (verifyContainerConfig appConfig project idmap w).
Proof.
  unfold verifyContainerConfig. loud;
    [apply exits_loudly_compose_files_loop|apply exits_loudly_remove_loop].
Qed.

Lemma exits_loudly_Up appConfig project tailLogs w :
  exits_loudly (Up appConfig project tailLogs w).
Proof.
  unfold Up, registriesLogin, networksCreate. loud;
    first [ apply exits_loudly_registriesLogin_loop
          | apply exits_loudly_networksCreate_loop
          | apply exits_loudly_verifyContainerConfig ].
Qed.

(** X9. A run of [Up] exits the process exactly when its trace ends with a
    fatal log line or with a docker-compose invocation that did not come
    back; no run stops silently, and none goes on after such an event. *)
Theorem Up_exit_iff_loud appConfig project tailLogs w :
  res (Up appConfig project tailLogs w) = Exit ↔
  ∃ pre e, events (Up appConfig project tailLogs w) = pre ++ [e] ∧
           (is_fatal e = true ∨ is_compose_exit e = true).
Proof.
  split; [apply exits_loudly_Up|].
  intros (pre & e & Heq & He).
  destruct (Up_shape appConfig project tailLogs w)
    as (eL & eN & eR & eC & Hev & _ & _ & _ & Hend).
  rewrite Hev in Heq.
  destruct Hend as [[_ ?]|[(_ & b & -> & Hres & _)|(_ & _ & b & -> & Hres)]];
    [done|..]; rewrite Hres.
  - rewrite !app_assoc in Heq. apply app_inj_tail in Heq as [_ <-].
    destruct He as [He|He]; [done|]. by destruct b.
  - change [compose_up_call appConfig project true;
            compose_logs_call appConfig project b]
      with ([compose_up_call appConfig project true] ++
            [compose_logs_call appConfig project b]) in Heq.
    rewrite !app_assoc in Heq. apply app_inj_tail in Heq as [_ <-].
    destruct He as [He|He]; [done|]. by destruct b.
Qed.

(** *** The identifiers that reach the reconciliation *)



(** X11. A network that was created during a run of [Up] is not exempt
    from the reconciliation: on a run that goes through, if some parsed
    service is attached to it, there is exactly one removal call for it,
    with the identifier the creation returned. *)
Theorem Up_fresh_network_reconciled appConfig project tailLogs w
    name opts id err :
  res (Up appConfig project tailLogs w) = Done () →
  CallNetworkCreate name opts id err
    ∈ events (Up appConfig project tailLogs w) →
  dependents name (parsed (events (Up appConfig project tailLogs w))) ≠ [] →
  err = None ∧
  filter (is_remove name) (events (Up appConfig project tailLogs w))
  = [CallRemoveContainerIfRequired name id
       (dependents name (parsed (events (Up appConfig project tailLogs w))))
       None].
Proof.
  intros Hdone Hin Hdeps.
  destruct (Up_blocks appConfig project tailLogs w)
    as (eN & eR & eC & Hev & (b & b' & HCs) & Hcases).
  pose proof (proj1 (compose_block appConfig project b b' eC HCs)) as HC.
  set (oL := registriesLogin appConfig w) in *.
  set (oN := networksCreate appConfig (world oL)) in *.
  destruct Hcases as [(-> & -> & Hx)|(-> & _ & [(_ & _ & Hx)|Hm])].
  { destruct (Up_blocks_located appConfig project tailLogs w [] [] eC Hev)
      as (Hloc & _); [constructor..|done|].
    apply Hloc in Hin; [|done]. by apply elem_of_nil in Hin. }
  { congruence. }
  destruct Hm as (m & Hres & -> & HresR). specialize (HresR Hdone).
  set (oR := verifyContainerConfig appConfig project m (world oN)) in *.
  destruct (Up_blocks_located appConfig project tailLogs w _ _ eC Hev)
    as (Hloc & _ & Hfilter & Hparsed);
    [apply networksCreate_block|apply verifyContainerConfig_block|done|].
  apply Hloc in Hin; [|done].
  rewrite Hfilter, Hparsed in *.
  unfold oN in Hin, Hres. rewrite networksCreate_run in Hin, Hres.
  pose proof Hin as Hin'.
  apply networksCreate_loop_create_after_query in Hin' as (_ & pre & post & Hq).
  destruct (networksCreate_loop_create
              (map_range Opts (Dev.Networks appConfig) (world oL)).1 ∅
              (map_range Opts (Dev.Networks appConfig) (world oL)).2 name
              (map_range_NoDup _ _)) as (opts' & id' & err' & _ & Hf & Hok).
  { rewrite Hq, !elem_of_app, elem_of_cons. tauto. }
  destruct (Hok m Hres) as (-> & Hid).
  assert (CallNetworkCreate name opts id err
            ∈ [CallNetworkCreate name opts' id' None]) as Heq.
  { rewrite <-Hf. apply list_elem_of_filter. split; [|done].
    cbn. by rewrite bool_decide_eq_true_2. }
  apply list_elem_of_singleton in Heq. injection Heq as -> -> ->.
  split; [done|].
  destruct (verifyContainerConfig_spec appConfig project m (world oN))
    as (_ & _ & _ & Hone & _).
  by apply Hone.
Qed.

(** *** A configuration without networks *)

Lemma networksCreate_empty appConfig w :
  Dev.Networks appConfig = ∅ →
  events (networksCreate appConfig w) = [] ∧
  res (networksCreate appConfig w) = Done ∅.
Proof.
  intros Hempty. rewrite networksCreate_run.
  pose proof (map_range_perm Opts (Dev.Networks appConfig) w) as Hperm.
  rewrite Hempty, map_to_list_empty in Hperm.
  apply Permutation_nil_r in Hperm. rewrite Hempty in *. by rewrite Hperm.
Qed.

(** X12. With no network declared in the configuration, a run of [Up]
    makes no network lookup or creation, parses no compose file and removes
    no container: after the registry logins it goes straight to
    docker-compose. *)
Theorem Up_without_networks appConfig project tailLogs w :
  Dev.Networks appConfig = ∅ →
  stage_calls EnsureNetworks (events (Up appConfig project tailLogs w)) = [] ∧
  stage_calls ReconcileContainers (events (Up appConfig project tailLogs w))
  = [] ∧
  ∃ eC, events (Up appConfig project tailLogs w)
        = events (registriesLogin appConfig w) ++ eC ∧
        Forall (λ e, stage_of e = Some ComposeUp ∨ stage_of e = Some TailLogs)
          eC.
Proof.
  intros Hempty.
  destruct (Up_blocks appConfig project tailLogs w)
    as (eN & eR & eC & Hev & (b & b' & HCs) & Hcases).
  pose proof (proj1 (compose_block appConfig project b b' eC HCs)) as HC.
  set (oL := registriesLogin appConfig w) in *.
  destruct (networksCreate_empty appConfig (world oL) Hempty) as [HNe HNr].
  assert (eN = [] ∧ eR = []) as [-> ->].
  { destruct Hcases as [(-> & -> & _)|(-> & _ & [(-> & _)|(m & Hm & -> & _)])];
      [done|done|].
    split; [done|]. rewrite HNr in Hm. by injection Hm as <-. }
  cbn [app] in Hev. rewrite Hev.
  pose proof (registriesLogin_within appConfig w) as HL.
  split_and!.
  - rewrite stage_calls_app, (within_stage_calls _ _ _ _ HL),
      (within_stage_calls _ _ _ _ HC); [done|cbn; lia..].
  - rewrite stage_calls_app, (within_stage_calls _ _ _ _ HL),
      (within_stage_calls _ _ _ _ HC); [done|cbn; lia..].
  - exists eC. split; [done|].
    destruct HCs as [->|[->| ->]]; repeat constructor; cbn; tauto.
Qed.

(** *** ProjectCmdUpCreate *)

(** X13. The command built by [ProjectCmdUpCreate] is named "up", and its
    arguments play no part: whatever they are, a run that goes through ends
    with the detached docker-compose "up" followed by the docker-compose
    "logs -f" of the project, both on the compose files of the project and
    under the image prefix of the configuration, and no fatal line is
    logged. *)
Theorem ProjectCmdUpCreate_tails_logs appConfig project args w :
  let cmd := ProjectCmdUpCreate appConfig project in
  Use cmd = "up" ∧
  (res (Run cmd args w) = Done () →
   ∃ pre,
     events (Run cmd args w) =
     pre ++ [CallRunDockerCompose (Dev.ImagePrefix appConfig) "up"
               (Project.DockerComposeFilenames project) ["-d"] true;
             CallRunDockerCompose (Dev.ImagePrefix appConfig) "logs"
               (Project.DockerComposeFilenames project)
               ["-f"; Project.Name project] true] ∧
     within 0 2 pre ∧ Forall (λ e, is_fatal e = false) pre).
Proof.
  cbn zeta. split; [done|]. cbn [Run ProjectCmdUpCreate]. intros Hdone.
  destruct (Up_shape appConfig project true w)
    as (eL & eN & eR & eC & Hev & [HL _] & [HN _] & [HR _] & Hend).
  apply login_block_within in HL.
  assert (within 0 2 (eL ++ eN ++ eR)) as Hpre.
  { rewrite !within_app. split_and!; eapply within_weaken; eauto. }
  destruct Hend as [[_ Hx]|[(_ & b & _ & Hres & Hb)|(Hnf & _ & b & -> & Hres)]].
  - congruence.
  - rewrite Hdone in Hres. destruct b; [|done]. by specialize (Hb eq_refl).
  - rewrite Hdone in Hres. destruct b; [|done].
    exists (eL ++ eN ++ eR). by rewrite Hev, <-!app_assoc.
Qed.

(** *** The log lines of registriesLogin *)

Lemma registriesLogin_loop_lines rs w url name password err :
  CallLogin url name password err ∈ events (registriesLogin_loop rs w) →
  ∃ r pre post,
    r ∈ rs ∧ login_of r = (url, name, password) ∧
    events (registriesLogin_loop rs w) =
    pre ++ [CallLogin url name password err; login_line r err] ++ post.
Proof.
  revert w. induction rs as [|r rs IH]; intros w.
  { by intros ?%elem_of_nil. }
  rewrite registriesLogin_loop_cons. cbn zeta.
  assert (∀ (o : Out Opts W ()) l,
    (CallLogin url name password err ∈ events o →
     ∃ r' pre post, r' ∈ rs ∧ login_of r' = (url, name, password) ∧
       events o = pre ++ [CallLogin url name password err;
                          login_line r' err] ++ post) →
    CallLogin url name password err
      ∈ CallLogin (Registry.URL r) (Registry.Name r) (Registry.Password r) l
        :: login_line r l :: events o →
    ∃ r' pre post, r' ∈ r :: rs ∧ login_of r' = (url, name, password) ∧
      CallLogin (Registry.URL r) (Registry.Name r) (Registry.Password r) l
        :: login_line r l :: events o =
      pre ++ [CallLogin url name password err; login_line r' err] ++ post)
    as Hstep.
  { intros o l Ho Hin. rewrite !elem_of_cons in Hin.
    destruct Hin as [Heq|[Heq|Hin]].
    - injection Heq as -> -> -> ->. exists r, [], (events o).
      split_and!; [by left|done..].
    - by destruct l.
    - destruct (Ho Hin) as (r' & pre & post & Hr' & Hl & ->).
      rewrite !app_comm_cons. eexists r', _, post.
      split_and!; [by right|done..]. }
  destruct (registry_Login _ _ _ w) as [[e|] w1]; cbn [fst snd];
    [destruct (Registry.ContinueOnFailure r) eqn:Hr|];
    rewrite ?prepend_events; cbn [events app]; intros Hin.
  - specialize (Hstep (registriesLogin_loop rs w1) (Some e)).
    cbn [login_line] in Hstep. rewrite Hr in Hstep. apply Hstep; [apply IH|done].
  - specialize (Hstep (mkOut [] w1 Exit) (Some e)).
    cbn [login_line events] in Hstep. rewrite Hr in Hstep.
    apply Hstep; [by intros ?%elem_of_nil|done].
  - specialize (Hstep (registriesLogin_loop rs w1) None).
    cbn [login_line] in Hstep. apply Hstep; [apply IH|done].
Qed.

(** X14. Every login attempt of [registriesLogin] is for a registry of the
    list and is followed at once by one log line that tells its outcome:
    a debug line with the name and the URL of the registry when the login
    succeeded, and a line with the error otherwise, at warning level for a
    registry marked continue-on-failure and at fatal level for the
    others. *)
Theorem registriesLogin_logs_every_attempt appConfig w
    url name password err :
  CallLogin url name password err ∈ events (registriesLogin appConfig w) →
  ∃ r pre post,
    r ∈ Dev.Registries appConfig ∧ login_of r = (url, name, password) ∧
    events (registriesLogin appConfig w) =
    pre ++ [CallLogin url name password err; login_line r err] ++ post.
Proof. apply registriesLogin_loop_lines. Qed.
End Proofs.

(** ** The properties on the sample world *)



Lemma networksCreate_complete_witness :
  dom ({["x" := "id-x"; "y" := "old"]} : gmap string string)
    = dom (Dev.Networks (Sample.dev ["x"; "y"] [])) ∧
  ∀ name, name ∈ dom (Dev.Networks (Sample.dev ["x"; "y"] [])) →
    is_Some (({["x" := "id-x"; "y" := "old"]} : gmap string string) !! name) ∧
    length (filter (is_query name)
              (events (networksCreate (ext:=Sample.ext)
                         (Sample.dev ["x"; "y"] []) {["y" := "old"]}))) = 1.
Proof.
  apply (networksCreate_complete (ext:=Sample.ext)).
  vm_compute. reflexivity.
Defined.

Lemma createNetworkServiceMap_declared_only_witness :
  dom ({["x" := ["A"]]} : gmap string (list string))
    ⊆ dom ({["x" := "id-x"]} : gmap string string) ∧
  res (createNetworkServiceMap (ext:=Sample.ext) (Sample.dev ["x"] [])
         (Sample.project ["a.yml"]) {["x" := "id-x"]} ∅)
    = Done {["x" := ["A"]]}.
Proof.
  destruct (createNetworkServiceMap_declared_only (ext:=Sample.ext)
    (Sample.dev ["x"] []) (Sample.project ["a.yml"]) {["x" := "id-x"]} ∅)
    as [Hkeys Hex].
  split.
  - apply Hkeys. vm_compute. reflexivity.
  - apply (Hex "a.yml" (Sample.parse "/srv/web" "a.yml").1 ∅).
    + reflexivity.
    + reflexivity.
    + vm_compute. reflexivity.
    + apply dom_singleton_L.
Defined.

Lemma verifyContainerConfig_removals_witness :
  filter (is_remove "x")
    (events (verifyContainerConfig (ext:=Sample.ext) (Sample.dev ["x"] [])
               (Sample.project ["a.yml"]) {["x" := "id-x"]} ∅))
  = [CallRemoveContainerIfRequired "x" "id-x" ["A"] None].
Proof.
  destruct (verifyContainerConfig_removals (ext:=Sample.ext)
    (Sample.dev ["x"] []) (Sample.project ["a.yml"]) {["x" := "id-x"]} ∅)
    as (_ & _ & _ & Hone & _).
  apply (Hone eq_refl "x" "id-x").
  - reflexivity.
  - vm_compute. discriminate.
Defined.

(** C10. The service-network map keeps duplicates: the list recorded for a
    declared network holds a service name once for every service of that name,
    in any of the parsed files, that references the network, and this is the
    list handed to the removal.  With two files that both have a service [A]
    on the declared network ["x"], the removal for ["x"] is asked for the
    services [["A"; "A"]]. *)
Theorem serviceNetworkMap_keeps_duplicates :
  (∀ Opts W (ext : Externals Opts W) devConfig project networkIDMap w m
     name svc,
     res (createNetworkServiceMap devConfig project networkIDMap w)
       = Done m →
     name ∈ dom networkIDMap →
     length (filter (svc =.) (default [] (m !! name))) =
     occurrences name svc
       (parsed (events (createNetworkServiceMap devConfig project
                          networkIDMap w)))) ∧
  (∀ Opts W (ext : Externals Opts W) appConfig project networkIDMap w
     name id services err svc,
     CallRemoveContainerIfRequired name id services err
       ∈ events (verifyContainerConfig appConfig project networkIDMap w) →
     length (filter (svc =.) services) =
     occurrences name svc
       (parsed (events (verifyContainerConfig appConfig project
                          networkIDMap w)))) ∧
  CallRemoveContainerIfRequired "x" "id-x" ["A"; "A"] None
    ∈ events (verifyContainerConfig (ext:=Sample.ext) (Sample.dev ["x"] [])
                (Sample.project ["a.yml"; "b.yml"]) {["x" := "id-x"]} ∅).
Proof.
  split_and!.
  - intros. by apply serviceNetworkMap_multiplicity.
  - intros. by eapply removal_multiplicity.
  - vm_compute. do 2 right. left.
Qed.

Lemma serviceNetworkMap_keeps_duplicates_witness :
  length (filter ("A" =.) ["A"; "A"]) =
  occurrences "x" "A"
    (parsed (events (verifyContainerConfig (ext:=Sample.ext)
                       (Sample.dev ["x"] [])
                       (Sample.project ["a.yml"; "b.yml"])
                       {["x" := "id-x"]} ∅))).
Proof.
  destruct serviceNetworkMap_keeps_duplicates as (_ & Hrem & Hin).
  exact (Hrem _ _ _ _ _ _ _ _ _ _ _ "A" Hin).
Defined.


Lemma registry_failure_policy_witness :
  Up (ext:=Sample.ext)
    (Sample.dev ["x"] [Sample.registry "hub" "wrong" true;
                       Sample.registry "quay" "wrong" false])
    (Sample.project ["a.yml"]) true ∅
  = mkOut
      ([CallLogin "https://hub" "hub" "wrong" (Some "denied");
        Log WarnLevel "Failed to login to hub registry: denied"] ++
       [CallLogin "https://quay" "quay" "wrong" (Some "denied");
        Log FatalLevel "Failed to login to quay registry: denied"])
      ∅ Exit ∧
  Forall (λ e : Event unit, is_operation e = false)
    ([CallLogin "https://hub" "hub" "wrong" (Some "denied");
      Log WarnLevel "Failed to login to hub registry: denied"] ++
     [CallLogin "https://quay" "quay" "wrong" (Some "denied");
      Log FatalLevel "Failed to login to quay registry: denied"]).
Proof.
  destruct (registry_failure_policy (ext:=Sample.ext)
    (Sample.dev ["x"] [Sample.registry "hub" "wrong" true;
                       Sample.registry "quay" "wrong" false])
    (Sample.project ["a.yml"]) true ∅
    [Sample.registry "hub" "wrong" true] (Sample.registry "quay" "wrong" false)
    []
    [CallLogin "https://hub" "hub" "wrong" (Some "denied");
     Log WarnLevel "Failed to login to hub registry: denied"]
    ∅ "denied" ∅) as [_ Hstrict].
  - reflexivity.
  - vm_compute. reflexivity.
  - reflexivity.
  - apply Hstrict. reflexivity.
Defined.

Lemma Up_no_retry_witness :
  length (filter (is_login "https://hub" "hub" "ok")
            (events (Up (ext:=Sample.ext)
                       (Sample.dev ["x"] [Sample.registry "hub" "ok" false])
                       (Sample.project ["a.yml"; "b.yml"]) true ∅))) ≤ 1 ∧
  length (filter (is_parse "/srv/web" "a.yml")
            (events (Up (ext:=Sample.ext)
                       (Sample.dev ["x"] [Sample.registry "hub" "ok" false])
                       (Sample.project ["a.yml"; "b.yml"]) true ∅))) ≤ 1.
Proof.
  destruct (Up_no_retry (ext:=Sample.ext)
    (Sample.dev ["x"] [Sample.registry "hub" "ok" false])
    (Sample.project ["a.yml"; "b.yml"]) true ∅)
    as (_ & _ & _ & _ & _ & _ & _ & Hlogin & Hparse).
  split.
  - apply Hlogin. apply NoDup_singleton.
  - apply Hparse. apply (bool_decide_unpack _). vm_compute. exact I.
Defined.

(** ** The further properties on the sample worlds *)

Lemma networksCreate_query_error_fatal_witness :
  res (networksCreate (ext:=Faulty.ext) (Sample.dev ["down"] []) ∅) = Exit ∧
  filter (is_create "down")
    (events (networksCreate (ext:=Faulty.ext) (Sample.dev ["down"] []) ∅))
    = [] ∧
  ∃ pre, events (networksCreate (ext:=Faulty.ext) (Sample.dev ["down"] []) ∅)
         = pre ++ [CallNetworkIDFromName "down" EmptyString
                     (Some "unreachable");
                   Log FatalLevel
                     ("Error checking if network " +:+ "down" +:+
                      " exists: " +:+ "unreachable")].
Proof.
  apply (networksCreate_query_error_fatal (ext:=Faulty.ext)).
  vm_compute. left.
Defined.

Lemma networksCreate_create_error_fatal_witness :
  res (networksCreate (ext:=Faulty.ext) (Sample.dev ["full"] []) ∅) = Exit ∧
  ∃ pre, events (networksCreate (ext:=Faulty.ext) (Sample.dev ["full"] []) ∅)
         = pre ++ [CallNetworkCreate "full" () EmptyString
                     (Some "pool exhausted");
                   Log InfoLevel
                     ("Created " +:+ "full" +:+ " network " +:+ EmptyString);
                   Log FatalLevel "pool exhausted"].
Proof.
  apply (networksCreate_create_error_fatal (ext:=Faulty.ext)).
  vm_compute. right. left.
Defined.

Lemma networksCreate_only_declared_absent_witness :
  Dev.Networks (Sample.dev ["x"] []) !! "x" = Some () ∧
  ∃ pre post,
    events (networksCreate (ext:=Sample.ext) (Sample.dev ["x"] []) ∅)
    = pre ++ [CallNetworkIDFromName "x" EmptyString None;
              CallNetworkCreate "x" () "id-x" None] ++ post.
Proof.
  destruct (networksCreate_only_declared_absent (ext:=Sample.ext)
    (Sample.dev ["x"] []) ∅) as [_ Hcreate].
  apply Hcreate. vm_compute. right. left.
Defined.

Lemma networksCreate_identifier_provenance_witness :
  (CallNetworkIDFromName "y" "old" None
     ∈ events (networksCreate (ext:=Sample.ext) (Sample.dev ["x"; "y"] [])
                 {["y" := "old"]}) ∧ "old" ≠ EmptyString) ∨
  (∃ opts, CallNetworkCreate "y" opts "old" None
             ∈ events (networksCreate (ext:=Sample.ext)
                         (Sample.dev ["x"; "y"] []) {["y" := "old"]})).
Proof.
  apply (networksCreate_identifier_provenance (ext:=Sample.ext)
    (Sample.dev ["x"; "y"] []) {["y" := "old"]}
    {["x" := "id-x"; "y" := "old"]}).
  - vm_compute. reflexivity.
  - reflexivity.
Defined.

Lemma registriesLogin_tolerant_never_exits_witness :
  res (registriesLogin (ext:=Sample.ext)
         (Sample.dev [] [Sample.registry "hub" "wrong" true;
                         Sample.registry "quay" "secret" true]) ∅)
    = Done () ∧
  logins (events (registriesLogin (ext:=Sample.ext)
         (Sample.dev [] [Sample.registry "hub" "wrong" true;
                         Sample.registry "quay" "secret" true]) ∅))
    = login_of <$> [Sample.registry "hub" "wrong" true;
                    Sample.registry "quay" "secret" true] ∧
  Forall (λ e, is_fatal e = false)
    (events (registriesLogin (ext:=Sample.ext)
         (Sample.dev [] [Sample.registry "hub" "wrong" true;
                         Sample.registry "quay" "secret" true]) ∅)).
Proof.
  apply (registriesLogin_tolerant_never_exits (ext:=Sample.ext)
    (Sample.dev [] [Sample.registry "hub" "wrong" true;
                    Sample.registry "quay" "secret" true])).
  repeat constructor.
Defined.

Lemma registriesLogin_exit_cause_witness :
  ∃ pre r post evs err,
    [Sample.registry "hub" "secret" false;
     Sample.registry "quay" "wrong" false;
     Sample.registry "ghcr" "secret" false] = pre ++ r :: post ∧
    Registry.ContinueOnFailure r = false ∧
    logins evs = login_of <$> pre ∧
    events (registriesLogin (ext:=Sample.ext)
              (Sample.dev [] [Sample.registry "hub" "secret" false;
                              Sample.registry "quay" "wrong" false;
                              Sample.registry "ghcr" "secret" false]) ∅) =
    evs ++ [CallLogin (Registry.URL r) (Registry.Name r)
              (Registry.Password r) (Some err);
            Log FatalLevel ("Failed to login to " +:+ Registry.Name r +:+
                            " registry: " +:+ err)].
Proof.
  destruct (registriesLogin_exit_cause (ext:=Sample.ext)
    (Sample.dev [] [Sample.registry "hub" "secret" false;
                    Sample.registry "quay" "wrong" false;
                    Sample.registry "ghcr" "secret" false]) ∅)
    as [Hexit _].
  apply Hexit. reflexivity.
Defined.

Lemma createNetworkServiceMap_exact_witness :
  ["A"; "A"] ≠ [] ∧
  ["A"; "A"] =
  dependents "x"
    (parsed (events (createNetworkServiceMap (ext:=Sample.ext)
                       (Sample.dev ["x"] [])
                       (Sample.project ["a.yml"; "b.yml"])
                       {["x" := "id-x"]} ∅))).
Proof.
  destruct (createNetworkServiceMap_exact (ext:=Sample.ext)
    (Sample.dev ["x"] []) (Sample.project ["a.yml"; "b.yml"])
    {["x" := "id-x"]} ∅ {["x" := ["A"; "A"]]}) as (_ & _ & Hlist).
  - vm_compute. reflexivity.
  - apply Hlist. reflexivity.
Defined.

Lemma verifyContainerConfig_parse_first_witness :
  res (verifyContainerConfig (ext:=Sample.ext) (Sample.dev ["x"] [])
         (Sample.project ["a.yml"; "missing.yml"]) {["x" := "id-x"]} ∅)
    = Exit ∧
  (∀ name,
     filter (is_remove name)
       (events (verifyContainerConfig (ext:=Sample.ext) (Sample.dev ["x"] [])
                  (Sample.project ["a.yml"; "missing.yml"])
                  {["x" := "id-x"]} ∅)) = []) ∧
  ∃ pre,
    events (verifyContainerConfig (ext:=Sample.ext) (Sample.dev ["x"] [])
              (Sample.project ["a.yml"; "missing.yml"])
              {["x" := "id-x"]} ∅) =
    pre ++ [CallParse "/srv/web" "missing.yml" (Compose.mk [])
              (Some "no such file");
            Log FatalLevel
              ("Failed to parse docker-compose appConfig file: " +:+
               "no such file")].
Proof.
  destruct (verifyContainerConfig_parse_first (ext:=Sample.ext)
    (Sample.dev ["x"] []) (Sample.project ["a.yml"; "missing.yml"])
    {["x" := "id-x"]} ∅) as [_ Hfail].
  apply Hfail. vm_compute. right. left.
Defined.

Lemma Up_exit_iff_loud_witness :
  ∃ pre e,
    events (Up (ext:=Sample.ext)
              (Sample.dev ["x"] [Sample.registry "quay" "wrong" false])
              (Sample.project ["a.yml"]) true ∅) = pre ++ [e] ∧
    (is_fatal e = true ∨ is_compose_exit e = true).
Proof.
  apply (Up_exit_iff_loud (ext:=Sample.ext)
    (Sample.dev ["x"] [Sample.registry "quay" "wrong" false])
    (Sample.project ["a.yml"]) true ∅).
  reflexivity.
Defined.


Lemma Up_fresh_network_reconciled_witness :
  (None : error) = None ∧
  filter (is_remove "x")
    (events (Up (ext:=Sample.ext) (Sample.dev ["x"] [])
               (Sample.project ["a.yml"]) true ∅))
  = [CallRemoveContainerIfRequired "x" "id-x"
       (dependents "x"
          (parsed (events (Up (ext:=Sample.ext) (Sample.dev ["x"] [])
                             (Sample.project ["a.yml"]) true ∅))))
       None].
Proof.
  apply (Up_fresh_network_reconciled (ext:=Sample.ext) (Sample.dev ["x"] [])
    (Sample.project ["a.yml"]) true ∅ "x" ()).
  - vm_compute. reflexivity.
  - vm_compute. repeat first [left | right].
  - vm_compute. discriminate.
Defined.

Lemma Up_without_networks_witness :
  stage_calls EnsureNetworks
    (events (Up (ext:=Sample.ext)
               (Sample.dev [] [Sample.registry "hub" "secret" false])
               (Sample.project ["a.yml"]) true ∅)) = [] ∧
  stage_calls ReconcileContainers
    (events (Up (ext:=Sample.ext)
               (Sample.dev [] [Sample.registry "hub" "secret" false])
               (Sample.project ["a.yml"]) true ∅)) = [] ∧
  ∃ eC, events (Up (ext:=Sample.ext)
                  (Sample.dev [] [Sample.registry "hub" "secret" false])
                  (Sample.project ["a.yml"]) true ∅)
        = events (registriesLogin (ext:=Sample.ext)
                    (Sample.dev [] [Sample.registry "hub" "secret" false]) ∅)
          ++ eC ∧
        Forall (λ e, stage_of e = Some ComposeUp ∨ stage_of e = Some TailLogs)
          eC.
Proof.
  apply (Up_without_networks (ext:=Sample.ext)
    (Sample.dev [] [Sample.registry "hub" "secret" false])
    (Sample.project ["a.yml"]) true ∅).
  reflexivity.
Defined.

Lemma ProjectCmdUpCreate_tails_logs_witness :
  ∃ pre,
    events (Run (ProjectCmdUpCreate (ext:=Sample.ext) (Sample.dev ["x"] [])
                   (Sample.project ["a.yml"])) ["--now"] ∅) =
    pre ++ [CallRunDockerCompose "dev" "up" ["a.yml"] ["-d"] true;
            CallRunDockerCompose "dev" "logs" ["a.yml"] ["-f"; "web"] true] ∧
    within 0 2 pre ∧ Forall (λ e, is_fatal e = false) pre.
Proof.
  destruct (ProjectCmdUpCreate_tails_logs (ext:=Sample.ext)
    (Sample.dev ["x"] []) (Sample.project ["a.yml"]) ["--now"] ∅)
    as [_ Hrun].
  apply Hrun. vm_compute. reflexivity.
Defined.

Lemma registriesLogin_logs_every_attempt_witness :
  ∃ r pre post,
    r ∈ [Sample.registry "hub" "wrong" true] ∧
    login_of r = ("https://hub", "hub", "wrong") ∧
    events (registriesLogin (ext:=Sample.ext)
              (Sample.dev [] [Sample.registry "hub" "wrong" true]) ∅) =
    pre ++ [CallLogin "https://hub" "hub" "wrong" (Some "denied");
            login_line r (Some "denied")] ++ post.
Proof.
  apply (registriesLogin_logs_every_attempt (ext:=Sample.ext)
    (Sample.dev [] [Sample.registry "hub" "wrong" true]) ∅).
  vm_compute. left.
Defined.
